(** * Cellular growth simulator: the numeric core of [CellularGrowthSimulator]

    The Python class evaluates two closed-form growth curves and solves a
    quadratic for the time at which the treated curve reaches half of the
    carrying capacity.  All of it is double-precision arithmetic done partly
    by Python's [float] and partly by numpy's [float64].

    Numbers are modelled as exact reals extended with the IEEE 754 special
    values the code can produce and test: signed zero, the two infinities and
    NaN.  Rounding, overflow and underflow of finite results are not
    modelled: a finite operation on finite operands is the exact real
    operation.  What is modelled is everything the control flow of the code
    depends on: log of zero is -inf, log and sqrt of a negative number are
    NaN, a division by zero is an infinity or NaN, every comparison with NaN
    is false, and numpy consults its error state ([np.seterr]) to decide
    whether an invalid operation or a division by zero continues with the
    IEEE value (the default, with a warning) or raises [FloatingPointError].

    Which arithmetic is Python's and which is numpy's follows the operand
    types of the source: [r], [alpha], [N0], [K], [Td] and the literals are
    Python numbers; [np.log], [np.sqrt], [np.exp] return numpy scalars, the
    time [t] of the two curves is a numpy value, and an operation with at
    least one numpy operand is numpy's.  Without overflow, Python's
    [OverflowError] (from [b_param**2]) does not arise; the bare [except]
    would catch it like any other exception.

    What is proved on these definitions is therefore a statement in exact
    arithmetic unless it only depends on the control flow.  Module [B64]
    evaluates the treated curve in binary64 itself, to show where rounding
    and overflow move its value onto the bounds that exact arithmetic keeps
    it away from. *)

From Stdlib Require Import Reals Lra Bool List.
From Stdlib Require PrimFloat.
Import ListNotations.

Open Scope R_scope.

(** ** Extended reals with IEEE special values *)

Module Ieee.

Inductive float : Type :=
| Fin (x : R)   (* a finite value; [Fin 0] is +0.0 *)
| NZero         (* -0.0 *)
| PInf
| NInf
| NaN.

(** The floating-point exceptions that exact arithmetic can still signal. *)
Inductive fpflag : Type := FlagNone | FlagInvalid | FlagDivide.

Inductive fclass : Type :=
| CNaN
| CInf (s : bool)
| CZero (s : bool)
| CNum (x : R).

Definition Rneg (x : R) : bool := if Rlt_dec x 0 then true else false.
Definition Rltb (x y : R) : bool := if Rlt_dec x y then true else false.
Definition Rleb (x y : R) : bool := if Rle_dec x y then true else false.

Definition classify (f : float) : fclass :=
  match f with
  | Fin x => if Req_dec_T x 0 then CZero false else CNum x
  | NZero => CZero true
  | PInf => CInf false
  | NInf => CInf true
  | NaN => CNaN
  end.

Definition zero (s : bool) : float := if s then NZero else Fin 0.
Definition inf (s : bool) : float := if s then NInf else PInf.

Definition quiet (f : float) : float * fpflag := (f, FlagNone).
Definition invalid : float * fpflag := (NaN, FlagInvalid).

(** The real number a float stands for (0 for the non-finite ones). *)
Definition fval (f : float) : R :=
  match f with
  | Fin x => x
  | _ => 0
  end.

Definition finite (f : float) : bool :=
  match f with
  | Fin _ | NZero => true
  | _ => false
  end.

Definition is_zero (f : float) : bool :=
  match classify f with
  | CZero _ => true
  | _ => false
  end.

Definition fneg (f : float) : float :=
  match classify f with
  | CNaN => NaN
  | CInf s => inf (negb s)
  | CZero s => zero (negb s)
  | CNum x => Fin (- x)
  end.

Definition ieee_add (x y : float) : float * fpflag :=
  match classify x, classify y with
  | CNaN, _ | _, CNaN => quiet NaN
  | CInf s, CInf s' => if eqb s s' then quiet (inf s) else invalid
  | CInf s, _ | _, CInf s => quiet (inf s)
  | CZero s, CZero s' => quiet (zero (s && s'))
  | CZero _, CNum v | CNum v, CZero _ => quiet (Fin v)
  | CNum u, CNum v => quiet (Fin (u + v))
  end.

Definition ieee_sub (x y : float) : float * fpflag := ieee_add x (fneg y).

Definition ieee_mul (x y : float) : float * fpflag :=
  match classify x, classify y with
  | CNaN, _ | _, CNaN => quiet NaN
  | CInf _, CZero _ | CZero _, CInf _ => invalid
  | CInf s, CInf s' => quiet (inf (xorb s s'))
  | CInf s, CNum v | CNum v, CInf s => quiet (inf (xorb s (Rneg v)))
  | CZero s, CZero s' => quiet (zero (xorb s s'))
  | CZero s, CNum v | CNum v, CZero s => quiet (zero (xorb s (Rneg v)))
  | CNum u, CNum v => quiet (Fin (u * v))
  end.

Definition ieee_div (x y : float) : float * fpflag :=
  match classify x, classify y with
  | CNaN, _ | _, CNaN => quiet NaN
  | CInf _, CInf _ | CZero _, CZero _ => invalid
  | CInf s, CZero s' => quiet (inf (xorb s s'))
  | CInf s, CNum v => quiet (inf (xorb s (Rneg v)))
  | CZero s, CInf s' => quiet (zero (xorb s s'))
  | CZero s, CNum v => quiet (zero (xorb s (Rneg v)))
  | CNum u, CInf s => quiet (zero (xorb (Rneg u) s))
  | CNum u, CZero s => (inf (xorb (Rneg u) s), FlagDivide)
  | CNum u, CNum v => quiet (Fin (u / v))
  end.

Definition ieee_sqrt (x : float) : float * fpflag :=
  match classify x with
  | CNaN => quiet NaN
  | CInf false => quiet PInf
  | CInf true => invalid
  | CZero s => quiet (zero s)
  | CNum u => if Rneg u then invalid else quiet (Fin (sqrt u))
  end.

Definition ieee_log (x : float) : float * fpflag :=
  match classify x with
  | CNaN => quiet NaN
  | CInf false => quiet PInf
  | CInf true => invalid
  | CZero _ => (NInf, FlagDivide)
  | CNum u => if Rneg u then invalid else quiet (Fin (ln u))
  end.

Definition ieee_exp (x : float) : float * fpflag :=
  match classify x with
  | CNaN => quiet NaN
  | CInf false => quiet PInf
  | CInf true => quiet (Fin 0)
  | CZero _ => quiet (Fin 1)
  | CNum u => quiet (Fin (exp u))
  end.

(** [2 ** x] *)
Definition ieee_pow2 (x : float) : float * fpflag :=
  match classify x with
  | CNaN => quiet NaN
  | CInf false => quiet PInf
  | CInf true => quiet (Fin 0)
  | CZero _ => quiet (Fin 1)
  | CNum u => quiet (Fin (Rpower 2 u))
  end.

(** Comparisons: false as soon as one operand is NaN; -0.0 equals +0.0. *)
Definition flt (x y : float) : bool :=
  match x, y with
  | NaN, _ | _, NaN => false
  | PInf, _ => false
  | _, NInf => false
  | NInf, _ => true
  | _, PInf => true
  | _, _ => Rltb (fval x) (fval y)
  end.

Definition fle (x y : float) : bool :=
  match x, y with
  | NaN, _ | _, NaN => false
  | NInf, _ => true
  | _, PInf => true
  | PInf, _ => false
  | _, NInf => false
  | _, _ => Rleb (fval x) (fval y)
  end.

Definition fgt (x y : float) : bool := flt y x.
Definition fge (x y : float) : bool := fle y x.

End Ieee.

Export Ieee.

(** ** Exceptions, Python floats and numpy scalars *)

Inductive exn : Type := ZeroDivisionError | FloatingPointError.

Inductive outcome (A : Type) : Type :=
| Ok (a : A)
| Raise (e : exn).

Arguments Ok {A} a.
Arguments Raise {A} e.

Definition bind {A B : Type} (m : outcome A) (k : A -> outcome B) : outcome B :=
  match m with
  | Ok a => k a
  | Raise e => Raise e
  end.

Notation "x <- m ;; k" := (bind m (fun x => k))
  (at level 61, m at next level, right associativity).

(** [try: body except: handler] with a bare [except], which catches
    every exception. *)
Definition try_except {A : Type} (body handler : outcome A) : outcome A :=
  match body with
  | Ok a => Ok a
  | Raise _ => handler
  end.

(** Python's own [float]: the IEEE value, no flag is looked at; only a true
    division by zero raises.  [x ** 2] is [x * x]. *)
Definition py_neg (x : float) : float := fneg x.
Definition py_mul (x y : float) : float := fst (ieee_mul x y).
Definition py_sub (x y : float) : float := fst (ieee_sub x y).
Definition py_pow2 (x : float) : float := fst (ieee_mul x x).
Definition py_div (x y : float) : outcome float :=
  if is_zero y then Raise ZeroDivisionError else Ok (fst (ieee_div x y)).

(** The builtin [max(a, b)] keeps [a] unless [b > a]. *)
Definition py_max (a b : float) : float := if fgt b a then b else a.

(** numpy's error state: does a signalled division by zero, or an invalid
    operation, raise?  [np.seterr] defaults to warning for both. *)
Record errstate : Type := {
  divide_raises : bool;
  invalid_raises : bool
}.

Definition np_default : errstate :=
  {| divide_raises := false; invalid_raises := false |}.

Definition np_signal (st : errstate) (p : float * fpflag) : outcome float :=
  match snd p with
  | FlagNone => Ok (fst p)
  | FlagInvalid =>
      if invalid_raises st then Raise FloatingPointError else Ok (fst p)
  | FlagDivide =>
      if divide_raises st then Raise FloatingPointError else Ok (fst p)
  end.

Section Numpy.

Variable st : errstate.

Definition np_add (x y : float) : outcome float := np_signal st (ieee_add x y).
Definition np_sub (x y : float) : outcome float := np_signal st (ieee_sub x y).
Definition np_mul (x y : float) : outcome float := np_signal st (ieee_mul x y).
Definition np_div (x y : float) : outcome float := np_signal st (ieee_div x y).
Definition np_sqrt (x : float) : outcome float := np_signal st (ieee_sqrt x).
Definition np_log (x : float) : outcome float := np_signal st (ieee_log x).
Definition np_exp (x : float) : outcome float := np_signal st (ieee_exp x).
Definition np_pow2 (x : float) : outcome float := np_signal st (ieee_pow2 x).

End Numpy.

(** ** The simulator *)

Record CellularGrowthSimulator : Type := {
  K : float;
  N0_initial : float;
  r0 : float;
  alpha0 : float;
  Tf : float;
  Td : float
}.

(** [__init__]'s defaults. *)
Definition default_simulator : CellularGrowthSimulator :=
  {| K := Fin 800; N0_initial := Fin 50; r0 := Fin (25 / 100);
     alpha0 := Fin (1 / 100); Tf := Fin 40; Td := Fin (35 / 10) |}.

Section Simulator.

Variable st : errstate.

(** [N0 * (2 ** (t/Td)) * np.exp(-0.02*t)], [t] a numpy value. *)
Definition _crecimiento_sin_tratamiento (t N0 Td : float) : outcome float :=
  q <- np_div st t Td ;;
  p <- np_pow2 st q ;;
  g <- np_mul st N0 p ;;
  m <- np_mul st (py_neg (Fin (2 / 100))) t ;;
  e <- np_exp st m ;;
  np_mul st g e.

(** [A = (K - N0) / N0] on Python numbers, then
    [K / (1 + A * np.exp(-r * t * (1 - alpha * t)))]. *)
Definition _crecimiento_con_tratamiento (t N0 K r alpha : float)
  : outcome float :=
  A <- py_div (py_sub K N0) N0 ;;
  rt <- np_mul st (py_neg r) t ;;
  at_ <- np_mul st alpha t ;;
  w <- np_sub st (Fin 1) at_ ;;
  x <- np_mul st rt w ;;
  e <- np_exp st x ;;
  ae <- np_mul st A e ;;
  d <- np_add st (Fin 1) ae ;;
  np_div st K d.

(** The locals of [_calcular_tiempo_medio], in the order of the source. *)
Definition a_param (r alpha : float) : float := py_mul (py_neg r) alpha.

Definition b_param (r : float) : float := r.

Definition c_param (A : float) : outcome float :=
  l <- np_log st A ;;
  Ok (fneg l).

Definition discriminant (r alpha A : float) : outcome float :=
  c <- c_param A ;;
  p <- np_mul st (py_mul (Fin 4) (a_param r alpha)) c ;;
  np_sub st (py_pow2 (b_param r)) p.

Definition t1 (r alpha d : float) : outcome float :=
  s <- np_sqrt st d ;;
  n <- np_add st (py_neg (b_param r)) s ;;
  np_div st n (py_mul (Fin 2) (a_param r alpha)).

Definition t2 (r alpha d : float) : outcome float :=
  s <- np_sqrt st d ;;
  n <- np_sub st (py_neg (b_param r)) s ;;
  np_div st n (py_mul (Fin 2) (a_param r alpha)).

(** [max(t1, t2) if t1 > 0 and t2 > 0 else (t1 if t1 > 0 else t2)] *)
Definition t_half_analytic (x1 x2 : float) : float :=
  if fgt x1 (Fin 0) && fgt x2 (Fin 0) then py_max x1 x2
  else if fgt x1 (Fin 0) then x1 else x2.

(** The body of the [try]: [Ok (Some t)] is [return t], [Ok None] is
    falling out of the [if]s. *)
Definition tiempo_medio_body (self : CellularGrowthSimulator)
    (N0 r alpha A : float) : outcome (option float) :=
  d <- discriminant r alpha A ;;
  if fge d (Fin 0) then
    x1 <- t1 r alpha d ;;
    x2 <- t2 r alpha d ;;
    let t := t_half_analytic x1 x2 in
    if fgt t (Fin 0) && fle t (Tf self) then Ok (Some t) else Ok None
  else Ok None.

(** [except: pass] and the final [return None]. *)
Definition _calcular_tiempo_medio (self : CellularGrowthSimulator)
    (N0 r alpha A : float) : outcome (option float) :=
  try_except (tiempo_medio_body self N0 r alpha A) (Ok None).

(** [_update_plot] computes [A_auto = (self.K - N0) / N0] on Python
    numbers and hands it to the solver. *)
Definition A_auto (self : CellularGrowthSimulator) (N0 : float)
  : outcome float :=
  py_div (py_sub (K self) N0) N0.

Definition t_half_of_update_plot (self : CellularGrowthSimulator)
    (N0 r alpha : float) : outcome (option float) :=
  A <- A_auto self N0 ;;
  _calcular_tiempo_medio self N0 r alpha A.

End Simulator.

(** The tail of [tiempo_medio_body] once the discriminant is known, named
    so that the paths through the body can be stated one at a time. *)
Definition after_discriminant (st : errstate) (self : CellularGrowthSimulator)
    (r alpha d : float) : outcome (option float) :=
  if fge d (Fin 0) then
    x1 <- t1 st r alpha d ;;
    x2 <- t2 st r alpha d ;;
    let t := t_half_analytic x1 x2 in
    if fgt t (Fin 0) && fle t (Tf self) then Ok (Some t) else Ok None
  else Ok None.

(** ** Reading floats as reals *)

(** [x =~ u]: the float [x] is finite and stands for the real [u]. *)
Definition repr (x : float) (u : R) : Prop := finite x = true /\ fval x = u.

Notation "x =~ u" := (repr x u) (at level 70, no associativity).

(** The quadratic [a t^2 + b t + c] of the solver over the reals, with
    [a = -r*alpha], [b = r], [c = -ln A]: discriminant and the two roots in
    the order the code computes them. *)
Definition Rdisc (r alpha A : R) : R := r * r - 4 * (- r * alpha) * (- ln A).

Definition Rroot1 (r alpha A : R) : R :=
  (- r + sqrt (Rdisc r alpha A)) / (2 * (- r * alpha)).

Definition Rroot2 (r alpha A : R) : R :=
  (- r - sqrt (Rdisc r alpha A)) / (2 * (- r * alpha)).

(** The two curves over the reals. *)
Definition Rtreated (t N0 K r alpha : R) : R :=
  K / (1 + (K - N0) / N0 * exp (- r * t * (1 - alpha * t))).

Definition Runtreated (t N0 Td : R) : R :=
  N0 * Rpower 2 (t / Td) * exp (- (2 / 100) * t).


(** ** Arrays, the sliders and the data of [_update_plot] *)

(** An elementwise numpy operation over an array: the first element that
    raises ends the evaluation. *)
Fixpoint mapM {A B : Type} (f : A -> outcome B) (l : list A)
  : outcome (list B) :=
  match l with
  | [] => Ok []
  | a :: l' => b <- f a ;; bs <- mapM f l' ;; Ok (b :: bs)
  end.

Definition set_last (l : list float) (x : float) : list float :=
  match l with
  | [] => []
  | _ :: _ => removelast l ++ [x]
  end.

(** [np.linspace(start, stop, num)], endpoint included: the samples are
    [i * step + start] with [step = (stop - start) / (num - 1)], and the last
    one is then overwritten with [stop].  With a single sample there is no
    step and the sample is [0 * (stop - start) + start]. *)
Definition np_linspace (st : errstate) (start stop : float) (num : nat)
  : outcome (list float) :=
  delta <- np_sub st stop start ;;
  if Nat.ltb 0 (num - 1) then
    step <- np_div st delta (Fin (INR (num - 1))) ;;
    y <- mapM (fun i => m <- np_mul st (Fin (INR i)) step ;;
                        np_add st m start) (seq 0 num) ;;
    Ok (set_last y stop)
  else
    mapM (fun i => m <- np_mul st (Fin (INR i)) delta ;;
                   np_add st m start) (seq 0 num).

(** [_create_widgets]: the three sliders, with their bounds and steps.  The
    position a slider starts at is decided by the widget, which brings the
    initial value it is given into the bounds; it is not part of this
    record. *)
Record FloatSlider : Type := {
  min : float;
  max : float;
  step : float
}.

Definition N0_slider (self : CellularGrowthSimulator) : FloatSlider :=
  {| min := Fin 10; max := Fin 200; step := Fin 10 |}.

Definition r_slider (self : CellularGrowthSimulator) : FloatSlider :=
  {| min := Fin (5 / 100); max := Fin 1; step := Fin (5 / 100) |}.

Definition alpha_slider (self : CellularGrowthSimulator) : FloatSlider :=
  {| min := Fin (1 / 1000); max := Fin (5 / 100); step := Fin (1 / 1000) |}.

(** A value a slider can hold: between its bounds. *)
Definition within (s : FloatSlider) (v : float) : bool :=
  fle (min s) v && fle v (max s).

(** What [_update_plot] hands to the axes: the time grid, the two series,
    the height of the [K/2] line, the marker (when the solver found a time)
    and the axis limits. *)
Record figure : Type := {
  fig_t : list float;
  fig_sin : list float;
  fig_con : list float;
  fig_half : float;
  fig_marker : option (float * float);
  fig_ylim : float * float;
  fig_xlim : float * float
}.

(** The computation of [_update_plot]: the body of its [with] block, with
    the slider values [N0], [r], [alpha] it reads at its start, up to the
    data handed to the axes.  [Raise] means that the block is left by that
    exception before anything is drawn; what the output widget then does
    with the exception is outside this model.  The two curve functions are
    called on the array [t]; their operations are elementwise, so on the
    (non-empty) grid they are the scalar functions applied to each
    sample. *)
Definition _update_plot (st : errstate) (self : CellularGrowthSimulator)
    (N0 r alpha : float) : outcome figure :=
  t <- np_linspace st (Fin 0) (Tf self) 300 ;;
  crecimiento_sin <-
    mapM (fun ti => _crecimiento_sin_tratamiento st ti N0 (Td self)) t ;;
  crecimiento_con <-
    mapM (fun ti => _crecimiento_con_tratamiento st ti N0 (K self) r alpha)
      t ;;
  half <- py_div (K self) (Fin 2) ;;
  A <- A_auto self N0 ;;
  t_half <- _calcular_tiempo_medio st self N0 r alpha A ;;
  Ok {| fig_t := t;
        fig_sin := crecimiento_sin;
        fig_con := crecimiento_con;
        fig_half := half;
        fig_marker := option_map (fun th => (th, half)) t_half;
        fig_ylim := (Fin 0, py_mul (K self) (Fin (11 / 10)));
        fig_xlim := (Fin 0, Tf self) |}.

(** ** The treated curve in binary64 *)

(** The expression of [_crecimiento_con_tratamiento] evaluated in IEEE 754
    binary64, round to nearest even, under numpy's default error state
    (overflow, underflow and invalid operations only warn).  The exponential
    of the C library is a parameter; it is consulted only where its result
    is not forced by the range of a double: [exp] of NaN is NaN, [exp x] is
    +inf from [x = 710] on (the logarithm of the largest double is
    709.78...), and 0.0 up to [x = -746] (the logarithm of half the smallest
    subnormal, [2^-1075], is -745.13...). *)
Module B64.

Import PrimFloat.
Local Open Scope float_scope.

Definition py_div (x y : float) : outcome float :=
  if y =? 0 then Raise ZeroDivisionError else Ok (x / y).

Definition np_exp (libm_exp : float -> float) (x : float) : float :=
  if is_nan x then nan
  else if 710 <=? x then infinity
  else if x <=? -746 then 0
  else libm_exp x.

Definition _crecimiento_con_tratamiento (libm_exp : float -> float)
    (t N0 K r alpha : float) : outcome float :=
  A <- py_div (K - N0) N0 ;;
  Ok (K / (1 + A * np_exp libm_exp (- r * t * (1 - alpha * t)))).

End B64.

(** ** Finite operands: the operations are those of the reals *)

Ltac split_reals :=
  repeat match goal with
    | |- context [Req_dec_T ?a ?b] => destruct (Req_dec_T a b)
    | |- context [Rlt_dec ?a ?b] => destruct (Rlt_dec a b)
    | |- context [Rle_dec ?a ?b] => destruct (Rle_dec a b)
    end.

Ltac unrepr :=
  repeat match goal with
    | H : _ =~ _ |- _ => destruct H as [? ?]
    end;
  repeat match goal with
    | x : float |- _ => destruct x; simpl in *; try discriminate
    end;
  subst.

Ltac ieee_finite :=
  unrepr; cbv [ieee_add ieee_sub ieee_mul ieee_div ieee_sqrt ieee_log ieee_exp
               ieee_pow2 fneg classify zero inf quiet invalid Rneg
               xorb andb negb];
  split_reals; simpl;
  try (exfalso; lra);
  try (eexists; split;
       [reflexivity | split; [reflexivity | simpl; try lra; try nra]]).

Lemma repr_Fin (u : R) : Fin u =~ u.
Proof. split; reflexivity. Qed.

Lemma repr_NZero : NZero =~ 0.
Proof. split; reflexivity. Qed.

Lemma repr_inj (x : float) (u v : R) : x =~ u -> x =~ v -> u = v.
Proof. intros [_ <-] [_ <-]. reflexivity. Qed.

Lemma repr_eq_nonzero (x y : float) (u : R) :
  x =~ u -> y =~ u -> u <> 0 -> x = y.
Proof.
  intros Hx Hy Hu. unrepr; try reflexivity; exfalso; lra.
Qed.

Lemma repr_ext (x : float) (u v : R) : x =~ u -> u = v -> x =~ v.
Proof. intros H <-. exact H. Qed.

Lemma fneg_repr (x : float) (u : R) : x =~ u -> fneg x =~ - u.
Proof.
  intros Hx. unrepr; cbv [fneg classify zero negb]; split_reals;
    split; simpl; try reflexivity; lra.
Qed.

Lemma ieee_add_repr (x y : float) (u v : R) :
  x =~ u -> y =~ v -> exists z, ieee_add x y = (z, FlagNone) /\ z =~ u + v.
Proof. intros Hx Hy. ieee_finite. Qed.

Lemma ieee_sub_repr (x y : float) (u v : R) :
  x =~ u -> y =~ v -> exists z, ieee_sub x y = (z, FlagNone) /\ z =~ u - v.
Proof.
  intros Hx Hy. unfold ieee_sub.
  destruct (ieee_add_repr x (fneg y) u (- v) Hx (fneg_repr y v Hy))
    as (z & Hz & Hr).
  exists z. split; [exact Hz|]. replace (u - v) with (u + - v) by lra. exact Hr.
Qed.

Lemma ieee_mul_repr (x y : float) (u v : R) :
  x =~ u -> y =~ v -> exists z, ieee_mul x y = (z, FlagNone) /\ z =~ u * v.
Proof. intros Hx Hy. ieee_finite. Qed.

Lemma ieee_div_repr (x y : float) (u v : R) :
  x =~ u -> y =~ v -> v <> 0 ->
  exists z, ieee_div x y = (z, FlagNone) /\ z =~ u / v.
Proof.
  intros Hx Hy Hv. ieee_finite; try (unfold Rdiv; lra); try (exfalso; lra).
Qed.

Lemma ieee_sqrt_repr (x : float) (u : R) :
  x =~ u -> 0 <= u -> exists z, ieee_sqrt x = (z, FlagNone) /\ z =~ sqrt u.
Proof.
  intros Hx Hu. ieee_finite; subst; rewrite ?sqrt_0; reflexivity.
Qed.

Lemma ieee_log_repr (x : float) (u : R) :
  x =~ u -> 0 < u -> exists z, ieee_log x = (z, FlagNone) /\ z =~ ln u.
Proof. intros Hx Hu. ieee_finite. Qed.

Lemma ieee_exp_repr (x : float) (u : R) :
  x =~ u -> exists z, ieee_exp x = (z, FlagNone) /\ z =~ exp u.
Proof. intros Hx. ieee_finite; subst; rewrite ?exp_0; reflexivity. Qed.

Lemma ieee_pow2_repr (x : float) (u : R) :
  x =~ u -> exists z, ieee_pow2 x = (z, FlagNone) /\ z =~ Rpower 2 u.
Proof.
  intros Hx. ieee_finite; subst; unfold Rpower; rewrite Rmult_0_l, exp_0;
    reflexivity.
Qed.

Lemma flt_repr (x y : float) (u v : R) :
  x =~ u -> y =~ v -> flt x y = Rltb u v.
Proof. intros Hx Hy. unrepr; reflexivity. Qed.

Lemma fle_repr (x y : float) (u v : R) :
  x =~ u -> y =~ v -> fle x y = Rleb u v.
Proof. intros Hx Hy. unrepr; reflexivity. Qed.

Lemma Rltb_true (u v : R) : u < v -> Rltb u v = true.
Proof.
  intros H. unfold Rltb.
  destruct (Rlt_dec u v); [reflexivity | contradiction].
Qed.

Lemma Rltb_false (u v : R) : ~ u < v -> Rltb u v = false.
Proof.
  intros H. unfold Rltb.
  destruct (Rlt_dec u v); [contradiction | reflexivity].
Qed.

Lemma Rleb_true (u v : R) : u <= v -> Rleb u v = true.
Proof.
  intros H. unfold Rleb.
  destruct (Rle_dec u v); [reflexivity | contradiction].
Qed.

Lemma Rleb_false (u v : R) : ~ u <= v -> Rleb u v = false.
Proof.
  intros H. unfold Rleb.
  destruct (Rle_dec u v); [contradiction | reflexivity].
Qed.

Lemma Rltb_spec (u v : R) : Rltb u v = true <-> u < v.
Proof. unfold Rltb. destruct (Rlt_dec u v); split; intros; easy. Qed.

Lemma Rleb_spec (u v : R) : Rleb u v = true <-> u <= v.
Proof. unfold Rleb. destruct (Rle_dec u v); split; intros; easy. Qed.

Section FiniteNumpy.

Variable st : errstate.

Lemma np_signal_quiet (z : float) : np_signal st (z, FlagNone) = Ok z.
Proof. reflexivity. Qed.

Lemma py_mul_repr (x y : float) (u v : R) :
  x =~ u -> y =~ v -> py_mul x y =~ u * v.
Proof.
  intros Hx Hy. unfold py_mul.
  destruct (ieee_mul_repr x y u v Hx Hy) as (z & -> & Hz). exact Hz.
Qed.

Lemma py_sub_repr (x y : float) (u v : R) :
  x =~ u -> y =~ v -> py_sub x y =~ u - v.
Proof.
  intros Hx Hy. unfold py_sub.
  destruct (ieee_sub_repr x y u v Hx Hy) as (z & -> & Hz). exact Hz.
Qed.

Lemma py_pow2_repr (x : float) (u : R) : x =~ u -> py_pow2 x =~ u * u.
Proof.
  intros Hx. unfold py_pow2.
  destruct (ieee_mul_repr x x u u Hx Hx) as (z & -> & Hz). exact Hz.
Qed.

Lemma is_zero_repr (x : float) (u : R) : x =~ u -> u <> 0 -> is_zero x = false.
Proof.
  intros Hx Hu. unrepr; unfold is_zero, classify; split_reals;
    try reflexivity; exfalso; lra.
Qed.

Lemma py_div_repr (x y : float) (u v : R) :
  x =~ u -> y =~ v -> v <> 0 -> exists z, py_div x y = Ok z /\ z =~ u / v.
Proof.
  intros Hx Hy Hv. unfold py_div. rewrite (is_zero_repr y v Hy Hv).
  destruct (ieee_div_repr x y u v Hx Hy Hv) as (z & -> & Hz).
  exists z. split; [reflexivity | exact Hz].
Qed.

Lemma np_add_repr (x y : float) (u v : R) :
  x =~ u -> y =~ v -> exists z, np_add st x y = Ok z /\ z =~ u + v.
Proof.
  intros Hx Hy. unfold np_add.
  destruct (ieee_add_repr x y u v Hx Hy) as (z & -> & Hz).
  exists z. split; [reflexivity | exact Hz].
Qed.

Lemma np_sub_repr (x y : float) (u v : R) :
  x =~ u -> y =~ v -> exists z, np_sub st x y = Ok z /\ z =~ u - v.
Proof.
  intros Hx Hy. unfold np_sub.
  destruct (ieee_sub_repr x y u v Hx Hy) as (z & -> & Hz).
  exists z. split; [reflexivity | exact Hz].
Qed.

Lemma np_mul_repr (x y : float) (u v : R) :
  x =~ u -> y =~ v -> exists z, np_mul st x y = Ok z /\ z =~ u * v.
Proof.
  intros Hx Hy. unfold np_mul.
  destruct (ieee_mul_repr x y u v Hx Hy) as (z & -> & Hz).
  exists z. split; [reflexivity | exact Hz].
Qed.

Lemma np_div_repr (x y : float) (u v : R) :
  x =~ u -> y =~ v -> v <> 0 -> exists z, np_div st x y = Ok z /\ z =~ u / v.
Proof.
  intros Hx Hy Hv. unfold np_div.
  destruct (ieee_div_repr x y u v Hx Hy Hv) as (z & -> & Hz).
  exists z. split; [reflexivity | exact Hz].
Qed.

Lemma np_sqrt_repr (x : float) (u : R) :
  x =~ u -> 0 <= u -> exists z, np_sqrt st x = Ok z /\ z =~ sqrt u.
Proof.
  intros Hx Hu. unfold np_sqrt.
  destruct (ieee_sqrt_repr x u Hx Hu) as (z & -> & Hz).
  exists z. split; [reflexivity | exact Hz].
Qed.

Lemma np_log_repr (x : float) (u : R) :
  x =~ u -> 0 < u -> exists z, np_log st x = Ok z /\ z =~ ln u.
Proof.
  intros Hx Hu. unfold np_log.
  destruct (ieee_log_repr x u Hx Hu) as (z & -> & Hz).
  exists z. split; [reflexivity | exact Hz].
Qed.

Lemma np_exp_repr (x : float) (u : R) :
  x =~ u -> exists z, np_exp st x = Ok z /\ z =~ exp u.
Proof.
  intros Hx. unfold np_exp.
  destruct (ieee_exp_repr x u Hx) as (z & -> & Hz).
  exists z. split; [reflexivity | exact Hz].
Qed.

Lemma np_pow2_repr (x : float) (u : R) :
  x =~ u -> exists z, np_pow2 st x = Ok z /\ z =~ Rpower 2 u.
Proof.
  intros Hx. unfold np_pow2.
  destruct (ieee_pow2_repr x u Hx) as (z & -> & Hz).
  exists z. split; [reflexivity | exact Hz].
Qed.

End FiniteNumpy.

(** ** NaN and the infinities through the operations *)

Lemma classify_nonzero (x : float) (u : R) :
  x =~ u -> u <> 0 -> classify x = CNum u.
Proof.
  intros Hx Hu. unrepr; unfold classify; split_reals; try reflexivity;
    exfalso; lra.
Qed.

Lemma classify_zero (x : float) : x =~ 0 -> exists s, classify x = CZero s.
Proof.
  intros Hx. unrepr; unfold classify; split_reals; try (exfalso; lra);
    eexists; reflexivity.
Qed.

Lemma classify_finite (x : float) (u : R) :
  x =~ u -> (exists s, classify x = CZero s) \/ classify x = CNum u.
Proof.
  intros Hx. destruct (Req_dec_T u 0) as [->|Hu].
  - left. apply classify_zero, Hx.
  - right. apply classify_nonzero; assumption.
Qed.

Lemma ieee_mul_NaN_r (x : float) : ieee_mul x NaN = (NaN, FlagNone).
Proof. unfold ieee_mul. destruct (classify x); reflexivity. Qed.

Lemma ieee_add_NaN_r (x : float) : ieee_add x NaN = (NaN, FlagNone).
Proof. unfold ieee_add. destruct (classify x); reflexivity. Qed.

Lemma ieee_sub_NaN_r (x : float) : ieee_sub x NaN = (NaN, FlagNone).
Proof. unfold ieee_sub. apply ieee_add_NaN_r. Qed.

Lemma fge_NaN_l (y : float) : fge NaN y = false.
Proof. destruct y; reflexivity. Qed.

Lemma fgt_NaN_l (y : float) : fgt NaN y = false.
Proof. destruct y; reflexivity. Qed.

(** A signalled operation either raises or continues with its IEEE value. *)
Lemma np_signal_cases (st : errstate) (p : float * fpflag) :
  np_signal st p = Ok (fst p) \/ np_signal st p = Raise FloatingPointError.
Proof.
  unfold np_signal. destruct (snd p).
  - left; reflexivity.
  - destruct (invalid_raises st); [right | left]; reflexivity.
  - destruct (divide_raises st); [right | left]; reflexivity.
Qed.

Lemma ieee_div_nonfinite_l (x y : float) :
  finite x = false -> finite y = true -> finite (fst (ieee_div x y)) = false.
Proof.
  intros Hx Hy. destruct x; try discriminate; destruct y; try discriminate;
    cbv [ieee_div classify inf zero quiet invalid xorb Rneg];
    split_reals; reflexivity.
Qed.

Lemma ieee_div_zero_r (x y : float) :
  finite x = true -> y =~ 0 -> finite (fst (ieee_div x y)) = false.
Proof.
  intros Hx Hy. destruct x; try discriminate; unrepr;
    cbv [ieee_div classify inf zero quiet invalid xorb Rneg];
    split_reals; try reflexivity; exfalso; lra.
Qed.

Lemma ieee_add_PInf_r (x : float) :
  finite x = true -> ieee_add x PInf = (PInf, FlagNone).
Proof.
  intros Hx. destruct x; try discriminate; cbv [ieee_add classify];
    split_reals; reflexivity.
Qed.

Lemma ieee_add_NInf_r (x : float) :
  finite x = true -> ieee_add x NInf = (NInf, FlagNone).
Proof.
  intros Hx. destruct x; try discriminate; cbv [ieee_add classify];
    split_reals; reflexivity.
Qed.

Lemma finite_repr (x : float) : finite x = true -> x =~ fval x.
Proof. intros H. split; [exact H | reflexivity]. Qed.

Lemma repr_finite (x : float) (u : R) : x =~ u -> finite x = true.
Proof. intros [H _]. exact H. Qed.

(** ** The quadratic over the reals *)

Lemma Rroot1_is_root (r alpha A : R) :
  r * alpha <> 0 -> 0 <= Rdisc r alpha A ->
  - r * alpha * (Rroot1 r alpha A * Rroot1 r alpha A)
    + r * Rroot1 r alpha A + - ln A = 0.
Proof.
  intros Ha Hd. unfold Rroot1.
  pose proof (sqrt_sqrt _ Hd) as Hs. unfold Rdisc in *.
  set (s := sqrt _) in *. set (l := ln A) in *.
  field_simplify_eq; [lra | split; intros ->; apply Ha; ring].
Qed.

Lemma Rroot2_is_root (r alpha A : R) :
  r * alpha <> 0 -> 0 <= Rdisc r alpha A ->
  - r * alpha * (Rroot2 r alpha A * Rroot2 r alpha A)
    + r * Rroot2 r alpha A + - ln A = 0.
Proof.
  intros Ha Hd. unfold Rroot2.
  pose proof (sqrt_sqrt _ Hd) as Hs. unfold Rdisc in *.
  set (s := sqrt _) in *. set (l := ln A) in *.
  field_simplify_eq; [lra | split; intros ->; apply Ha; ring].
Qed.

(** A root of the quadratic is a time at which the treated curve is at half
    of the carrying capacity. *)
Lemma root_half_capacity (t N0 K r alpha : R) :
  0 < N0 -> N0 < K ->
  - r * alpha * (t * t) + r * t + - ln ((K - N0) / N0) = 0 ->
  Rtreated t N0 K r alpha = K / 2.
Proof.
  intros HN HK Hroot. unfold Rtreated.
  assert (HA : 0 < (K - N0) / N0) by (apply Rdiv_lt_0_compat; lra).
  replace (- r * t * (1 - alpha * t)) with (- ln ((K - N0) / N0)) by lra.
  rewrite exp_Ropp. rewrite exp_ln by exact HA.
  rewrite Rinv_r by lra. lra.
Qed.

(** ** The solver, path by path *)

Lemma t_half_analytic_cases (x1 x2 : float) :
  t_half_analytic x1 x2 = x1 \/ t_half_analytic x1 x2 = x2.
Proof.
  unfold t_half_analytic, py_max.
  destruct (fgt x1 (Fin 0) && fgt x2 (Fin 0)).
  - destruct (fgt x2 x1); [right | left]; reflexivity.
  - destruct (fgt x1 (Fin 0)); [left | right]; reflexivity.
Qed.

Lemma range_check_nonfinite (t tf : float) :
  finite t = false -> finite tf = true ->
  fgt t (Fin 0) && fle t tf = false.
Proof.
  intros Ht Htf. destruct t; try discriminate; destruct tf; try discriminate;
    reflexivity.
Qed.

Lemma range_check_repr (t tf : float) (u v : R) :
  t =~ u -> tf =~ v ->
  fgt t (Fin 0) && fle t tf = Rltb 0 u && Rleb u v.
Proof.
  intros Ht Htf. unfold fgt.
  rewrite (flt_repr (Fin 0) t 0 u (repr_Fin 0) Ht), (fle_repr t tf u v Ht Htf).
  reflexivity.
Qed.

Lemma a_param_repr (r alpha : float) (rr al : R) :
  r =~ rr -> alpha =~ al -> a_param r alpha =~ - rr * al.
Proof.
  intros Hr Ha. unfold a_param, py_neg.
  apply py_mul_repr; [apply fneg_repr, Hr | exact Ha].
Qed.

Section SolverPaths.

Variable st : errstate.
Variable self : CellularGrowthSimulator.

Lemma discriminant_repr (r alpha A : float) (rr al aa : R) :
  r =~ rr -> alpha =~ al -> A =~ aa -> 0 < aa ->
  exists d, discriminant st r alpha A = Ok d /\ d =~ Rdisc rr al aa.
Proof.
  intros Hr Ha HA Haa. unfold discriminant, c_param, b_param.
  destruct (np_log_repr st A aa HA Haa) as (l & -> & Hl). simpl.
  pose proof (py_mul_repr _ _ _ _ (repr_Fin 4)
                (a_param_repr r alpha rr al Hr Ha)) as H4a.
  destruct (np_mul_repr st _ _ _ _ H4a (fneg_repr l _ Hl)) as (p & -> & Hp).
  simpl.
  destruct (np_sub_repr st _ _ _ _ (py_pow2_repr r rr Hr) Hp) as (d & -> & Hd).
  exists d. split; [reflexivity | exact Hd].
Qed.

Lemma t1_repr (r alpha d : float) (rr al dd : R) :
  r =~ rr -> alpha =~ al -> d =~ dd -> 0 <= dd -> rr * al <> 0 ->
  exists x, t1 st r alpha d = Ok x /\
            x =~ (- rr + sqrt dd) / (2 * (- rr * al)).
Proof.
  intros Hr Ha Hd Hdd Hnz. unfold t1, b_param, py_neg.
  destruct (np_sqrt_repr st d dd Hd Hdd) as (s & -> & Hs). simpl.
  destruct (np_add_repr st _ _ _ _ (fneg_repr r rr Hr) Hs) as (n & -> & Hn).
  simpl.
  apply np_div_repr; [exact Hn | | lra].
  apply py_mul_repr; [apply repr_Fin | apply a_param_repr; assumption].
Qed.

Lemma t2_repr (r alpha d : float) (rr al dd : R) :
  r =~ rr -> alpha =~ al -> d =~ dd -> 0 <= dd -> rr * al <> 0 ->
  exists x, t2 st r alpha d = Ok x /\
            x =~ (- rr - sqrt dd) / (2 * (- rr * al)).
Proof.
  intros Hr Ha Hd Hdd Hnz. unfold t2, b_param, py_neg.
  destruct (np_sqrt_repr st d dd Hd Hdd) as (s & -> & Hs). simpl.
  destruct (np_sub_repr st _ _ _ _ (fneg_repr r rr Hr) Hs) as (n & -> & Hn).
  simpl.
  apply np_div_repr; [exact Hn | | lra].
  apply py_mul_repr; [apply repr_Fin | apply a_param_repr; assumption].
Qed.

(** Real roots, non-degenerate quadratic: the solver computes both roots,
    selects one and applies the range check. *)
Lemma solver_regular (N0 r alpha A : float) (rr al aa : R) :
  r =~ rr -> alpha =~ al -> A =~ aa ->
  0 < aa -> rr * al <> 0 -> 0 <= Rdisc rr al aa ->
  exists d x1 x2,
    discriminant st r alpha A = Ok d /\
    t1 st r alpha d = Ok x1 /\ t2 st r alpha d = Ok x2 /\
    x1 =~ Rroot1 rr al aa /\ x2 =~ Rroot2 rr al aa /\
    _calcular_tiempo_medio st self N0 r alpha A =
      Ok (if fgt (t_half_analytic x1 x2) (Fin 0)
             && fle (t_half_analytic x1 x2) (Tf self)
          then Some (t_half_analytic x1 x2) else None).
Proof.
  intros Hr Ha HA Haa Hnz Hdisc.
  destruct (discriminant_repr r alpha A rr al aa Hr Ha HA Haa) as (d & Ed & Hd).
  destruct (t1_repr r alpha d rr al _ Hr Ha Hd Hdisc Hnz) as (x1 & E1 & H1).
  destruct (t2_repr r alpha d rr al _ Hr Ha Hd Hdisc Hnz) as (x2 & E2 & H2).
  exists d, x1, x2. repeat (split; [assumption|]).
  unfold _calcular_tiempo_medio, tiempo_medio_body. rewrite Ed. cbn [bind].
  unfold fge.
  rewrite (fle_repr _ _ _ _ (repr_Fin 0) Hd), Rleb_true by exact Hdisc.
  rewrite E1, E2. cbn [bind try_except].
  destruct (fgt _ _ && fle _ _); reflexivity.
Qed.

(** No real root: nothing is returned. *)
Lemma solver_negative_discriminant (N0 r alpha A : float) (rr al aa : R) :
  r =~ rr -> alpha =~ al -> A =~ aa ->
  0 < aa -> Rdisc rr al aa < 0 ->
  _calcular_tiempo_medio st self N0 r alpha A = Ok None.
Proof.
  intros Hr Ha HA Haa Hdisc.
  destruct (discriminant_repr r alpha A rr al aa Hr Ha HA Haa) as (d & Ed & Hd).
  unfold _calcular_tiempo_medio, tiempo_medio_body. rewrite Ed. cbn [bind].
  unfold fge. rewrite (fle_repr _ _ _ _ (repr_Fin 0) Hd), Rleb_false by lra.
  reflexivity.
Qed.

End SolverPaths.

Section DegeneratePaths.

Variable st : errstate.
Variable self : CellularGrowthSimulator.

(** Once both quotients are non-finite the range check rejects the
    candidate, whichever was selected. *)
Lemma range_check_rejects (x1 x2 : float) :
  finite x1 = false -> finite x2 = false -> finite (Tf self) = true ->
  fgt (t_half_analytic x1 x2) (Fin 0)
    && fle (t_half_analytic x1 x2) (Tf self) = false.
Proof.
  intros H1 H2 HT. apply range_check_nonfinite; [|exact HT].
  destruct (t_half_analytic_cases x1 x2) as [-> | ->]; assumption.
Qed.

Lemma body_unfold (N0 r alpha A : float) :
  tiempo_medio_body st self N0 r alpha A =
    (d <- discriminant st r alpha A ;; after_discriminant st self r alpha d).
Proof. reflexivity. Qed.

(** Both quotients non-finite: the [try] ends without a value or raises. *)
Lemma after_discriminant_nonfinite (r alpha d : float) :
  finite (Tf self) = true ->
  (forall x, t1 st r alpha d = Ok x -> finite x = false) ->
  (forall x, t2 st r alpha d = Ok x -> finite x = false) ->
  try_except (after_discriminant st self r alpha d) (Ok None) = Ok None.
Proof.
  intros HT H1 H2. unfold after_discriminant.
  destruct (fge d (Fin 0)); [|reflexivity].
  destruct (t1 st r alpha d) as [x1|e1]; [|reflexivity].
  destruct (t2 st r alpha d) as [x2|e2]; [|reflexivity].
  cbn [bind]. rewrite range_check_rejects; auto.
Qed.

(** A division whose result cannot be finite. *)
Lemma np_div_nonfinite (n den x : float) :
  finite (fst (ieee_div n den)) = false ->
  np_div st n den = Ok x -> finite x = false.
Proof.
  intros Hq E. unfold np_div in E.
  destruct (np_signal_cases st (ieee_div n den)) as [E'|E'];
    rewrite E' in E; [injection E as <-; exact Hq | discriminate].
Qed.

(** Logarithm of a negative number: NaN reaches the test on the
    discriminant, or the operation raises. *)
Lemma solver_log_negative (N0 r alpha A : float) (aa : R) :
  A =~ aa -> aa < 0 ->
  _calcular_tiempo_medio st self N0 r alpha A = Ok None.
Proof.
  intros HA Haa.
  unfold _calcular_tiempo_medio, tiempo_medio_body, discriminant, c_param,
    np_log.
  assert (El : ieee_log A = (NaN, FlagInvalid)).
  { unfold ieee_log. rewrite (classify_nonzero A aa HA) by lra.
    unfold Rneg. destruct (Rlt_dec aa 0); [reflexivity | contradiction]. }
  rewrite El.
  destruct (np_signal_cases st (NaN, FlagInvalid)) as [E|E]; rewrite E;
    [|reflexivity].
  cbn [bind fst]. change (fneg NaN) with NaN.
  unfold np_mul. rewrite ieee_mul_NaN_r. cbn [np_signal snd fst bind].
  unfold np_sub. rewrite ieee_sub_NaN_r. cbn [np_signal snd fst bind].
  reflexivity.
Qed.

Lemma den_repr (r alpha : float) (rr al : R) :
  r =~ rr -> alpha =~ al ->
  py_mul (Fin 2) (a_param r alpha) =~ 2 * (- rr * al).
Proof.
  intros Hr Ha.
  apply py_mul_repr; [apply repr_Fin | apply a_param_repr; assumption].
Qed.

(** Degenerate quadratic ([r * alpha = 0]): both divisions are by zero. *)
Lemma solver_degenerate (N0 r alpha A : float) (rr al aa : R) :
  r =~ rr -> alpha =~ al -> A =~ aa -> finite (Tf self) = true ->
  0 < aa -> rr * al = 0 ->
  _calcular_tiempo_medio st self N0 r alpha A = Ok None.
Proof.
  intros Hr Ha HA HT Haa Hz.
  destruct (discriminant_repr st r alpha A rr al aa Hr Ha HA Haa)
    as (d & Ed & Hd).
  assert (Hdd : 0 <= Rdisc rr al aa).
  { unfold Rdisc. replace (- rr * al) with (- (rr * al)) by ring.
    rewrite Hz. nra. }
  assert (Hden : py_mul (Fin 2) (a_param r alpha) =~ 0).
  { apply (repr_ext _ (2 * (- rr * al)) 0); [apply den_repr; assumption|].
    replace (- rr * al) with (- (rr * al)) by ring. rewrite Hz. ring. }
  unfold _calcular_tiempo_medio. rewrite body_unfold, Ed. cbn [bind].
  destruct (np_sqrt_repr st d _ Hd Hdd) as (s & Es & Hs).
  apply after_discriminant_nonfinite; [exact HT | |]; intros x Ex.
  - unfold t1, b_param, py_neg in Ex. rewrite Es in Ex. cbn [bind] in Ex.
    destruct (np_add_repr st _ _ _ _ (fneg_repr r rr Hr) Hs) as (n & En & Hn).
    rewrite En in Ex. cbn [bind] in Ex.
    apply (np_div_nonfinite _ _ _
             (ieee_div_zero_r _ _ (repr_finite _ _ Hn) Hden) Ex).
  - unfold t2, b_param, py_neg in Ex. rewrite Es in Ex. cbn [bind] in Ex.
    destruct (np_sub_repr st _ _ _ _ (fneg_repr r rr Hr) Hs) as (n & En & Hn).
    rewrite En in Ex. cbn [bind] in Ex.
    apply (np_div_nonfinite _ _ _
             (ieee_div_zero_r _ _ (repr_finite _ _ Hn) Hden) Ex).
Qed.

(** Logarithm of zero: [c_param] is +inf (or the operation raises). *)
Lemma solver_log_zero (N0 r alpha A : float) (rr al : R) :
  r =~ rr -> alpha =~ al -> A =~ 0 -> finite (Tf self) = true ->
  _calcular_tiempo_medio st self N0 r alpha A = Ok None.
Proof.
  intros Hr Ha HA HT.
  unfold _calcular_tiempo_medio. rewrite body_unfold.
  unfold discriminant, c_param, np_log.
  assert (El : ieee_log A = (NInf, FlagDivide)).
  { unfold ieee_log. destruct (classify_zero A HA) as (s & ->). reflexivity. }
  rewrite El.
  destruct (np_signal_cases st (NInf, FlagDivide)) as [E|E]; rewrite E;
    [|reflexivity].
  cbn [bind fst]. change (fneg NInf) with PInf.
  pose proof (py_mul_repr _ _ _ _ (repr_Fin 4)
                (a_param_repr r alpha rr al Hr Ha)) as H4a.
  pose proof (py_pow2_repr r rr Hr) as Hb2. unfold b_param.
  set (m := py_mul (Fin 4) (a_param r alpha)) in *.
  set (b2 := py_pow2 r) in *.
  unfold np_mul, ieee_mul.
  destruct (classify_finite m _ H4a) as [(s & ->) | ->]; cbn [classify].
  - (* 0 * inf *)
    destruct (np_signal_cases st invalid) as [E'|E']; rewrite E';
      [|reflexivity].
    cbn [bind fst invalid]. unfold np_sub. rewrite ieee_sub_NaN_r.
    reflexivity.
  - unfold quiet. cbn [np_signal snd fst bind xorb].
    unfold np_sub, ieee_sub.
    destruct (Rneg (4 * (- rr * al))); cbn [inf].
    + (* the product is -inf, the discriminant +inf *)
      change (fneg NInf) with PInf.
      rewrite (ieee_add_PInf_r b2 (repr_finite _ _ Hb2)).
      cbn [np_signal snd fst bind].
      pose proof (repr_finite _ _ (den_repr r alpha rr al Hr Ha)) as Hden.
      apply after_discriminant_nonfinite; [exact HT | |]; intros x Ex.
      * unfold t1, b_param, py_neg, np_sqrt, np_add in Ex.
        change (ieee_sqrt PInf) with (PInf, FlagNone) in Ex.
        cbn [np_signal snd fst bind] in Ex.
        rewrite (ieee_add_PInf_r _ (repr_finite _ _ (fneg_repr r rr Hr))) in Ex.
        cbn [np_signal snd fst bind] in Ex.
        apply (np_div_nonfinite _ _ _
                 (ieee_div_nonfinite_l PInf _ eq_refl Hden) Ex).
      * unfold t2, b_param, py_neg, np_sqrt, np_sub, ieee_sub in Ex.
        change (ieee_sqrt PInf) with (PInf, FlagNone) in Ex.
        cbn [np_signal snd fst bind] in Ex.
        change (fneg PInf) with NInf in Ex.
        rewrite (ieee_add_NInf_r _ (repr_finite _ _ (fneg_repr r rr Hr))) in Ex.
        cbn [np_signal snd fst bind] in Ex.
        apply (np_div_nonfinite _ _ _
                 (ieee_div_nonfinite_l NInf _ eq_refl Hden) Ex).
    + (* the product is +inf, the discriminant -inf *)
      change (fneg PInf) with NInf.
      rewrite (ieee_add_NInf_r b2 (repr_finite _ _ Hb2)).
      reflexivity.
Qed.

End DegeneratePaths.

(** ** The growth curves on finite operands *)

Section Curves.

Variable st : errstate.

Lemma untreated_repr (t N0 Td : float) (tt n0 td : R) :
  t =~ tt -> N0 =~ n0 -> Td =~ td -> td <> 0 ->
  exists y, _crecimiento_sin_tratamiento st t N0 Td = Ok y /\
            y =~ Runtreated tt n0 td.
Proof.
  intros Ht HN HT Htd. unfold _crecimiento_sin_tratamiento, py_neg.
  destruct (np_div_repr st _ _ _ _ Ht HT Htd) as (q & -> & Hq). cbn [bind].
  destruct (np_pow2_repr st _ _ Hq) as (p & -> & Hp). cbn [bind].
  destruct (np_mul_repr st _ _ _ _ HN Hp) as (g & -> & Hg). cbn [bind].
  destruct (np_mul_repr st _ _ _ _ (fneg_repr _ _ (repr_Fin (2 / 100))) Ht)
    as (m & -> & Hm). cbn [bind].
  destruct (np_exp_repr st _ _ Hm) as (e & -> & He). cbn [bind].
  apply np_mul_repr; assumption.
Qed.

Lemma treated_repr (t N0 Kc r alpha : float) (tt n0 k rr al : R) :
  t =~ tt -> N0 =~ n0 -> Kc =~ k -> r =~ rr -> alpha =~ al ->
  n0 <> 0 ->
  1 + (k - n0) / n0 * exp (- rr * tt * (1 - al * tt)) <> 0 ->
  exists y, _crecimiento_con_tratamiento st t N0 Kc r alpha = Ok y /\
            y =~ Rtreated tt n0 k rr al.
Proof.
  intros Ht HN HK Hr Ha Hn0 Hden.
  unfold _crecimiento_con_tratamiento, py_neg.
  destruct (py_div_repr _ _ _ _ (py_sub_repr _ _ _ _ HK HN) HN Hn0)
    as (A & -> & HA). cbn [bind].
  destruct (np_mul_repr st _ _ _ _ (fneg_repr _ _ Hr) Ht) as (rt & -> & Hrt).
  cbn [bind].
  destruct (np_mul_repr st _ _ _ _ Ha Ht) as (at_ & -> & Hat). cbn [bind].
  destruct (np_sub_repr st _ _ _ _ (repr_Fin 1) Hat) as (w & -> & Hw).
  cbn [bind].
  destruct (np_mul_repr st _ _ _ _ Hrt Hw) as (x & -> & Hx). cbn [bind].
  destruct (np_exp_repr st _ _ Hx) as (e & -> & He). cbn [bind].
  destruct (np_mul_repr st _ _ _ _ HA He) as (ae & -> & Hae). cbn [bind].
  destruct (np_add_repr st _ _ _ _ (repr_Fin 1) Hae) as (d & -> & Hd).
  cbn [bind].
  apply np_div_repr; assumption.
Qed.

End Curves.

Lemma Rtreated_bounds (t N0 Kc r alpha : R) :
  0 < N0 -> N0 < Kc ->
  1 < 1 + (Kc - N0) / N0 * exp (- r * t * (1 - alpha * t)) /\
  0 < Rtreated t N0 Kc r alpha < Kc.
Proof.
  intros HN HK.
  assert (HA : 0 < (Kc - N0) / N0) by (apply Rdiv_lt_0_compat; lra).
  pose proof (exp_pos (- r * t * (1 - alpha * t))) as He.
  pose proof (Rmult_lt_0_compat _ _ HA He) as Hp.
  unfold Rtreated. set (d := 1 + _) in *.
  assert (Hd : 1 < d) by (unfold d; lra).
  split; [exact Hd|]. split.
  - apply Rdiv_lt_0_compat; lra.
  - apply Rmult_lt_reg_r with d; [lra|].
    unfold Rdiv. rewrite Rmult_assoc, Rinv_l by lra. nra.
Qed.

Lemma Rtreated_at_0 (N0 Kc r alpha : R) :
  N0 <> 0 -> Kc <> 0 -> Rtreated 0 N0 Kc r alpha = N0.
Proof.
  intros HN HK. unfold Rtreated.
  replace (- r * 0 * (1 - alpha * 0)) with 0 by ring.
  rewrite exp_0. field. split; lra.
Qed.

Lemma Runtreated_at_0 (N0 Td : R) : Runtreated 0 N0 Td = N0.
Proof.
  unfold Runtreated, Rpower.
  replace (0 / Td * ln 2) with 0 by (unfold Rdiv; ring).
  replace (- (2 / 100) * 0) with 0 by ring.
  rewrite exp_0. ring.
Qed.

(** ** Which root is selected *)

Lemma Rroots_ordered (r alpha A : R) :
  0 < r -> 0 < alpha -> 0 <= Rdisc r alpha A ->
  Rroot1 r alpha A <= Rroot2 r alpha A /\ 1 / (2 * alpha) <= Rroot2 r alpha A.
Proof.
  intros Hr Ha Hd. unfold Rroot1, Rroot2.
  pose proof (sqrt_pos (Rdisc r alpha A)) as Hs.
  set (s := sqrt _) in *.
  assert (Hp : 0 < 2 * (r * alpha)) by nra.
  assert (E1 : (- r + s) / (2 * (- r * alpha)) = (r - s) / (2 * (r * alpha)))
    by (field; lra).
  assert (E2 : (- r - s) / (2 * (- r * alpha)) = (r + s) / (2 * (r * alpha)))
    by (field; lra).
  assert (E3 : 1 / (2 * alpha) = r / (2 * (r * alpha))) by (field; lra).
  rewrite E1, E2, E3. unfold Rdiv.
  pose proof (Rinv_0_lt_compat _ Hp) as Hi.
  split; apply Rmult_le_compat_r; lra.
Qed.

Lemma Rroot1_positive_iff (r alpha A : R) :
  0 < r -> 0 < alpha -> 0 <= Rdisc r alpha A ->
  (0 < Rroot1 r alpha A <-> 0 < ln A).
Proof.
  intros Hr Ha Hd. unfold Rroot1.
  pose proof (sqrt_pos (Rdisc r alpha A)) as Hs.
  pose proof (sqrt_sqrt _ Hd) as Hss.
  set (s := sqrt _) in *.
  assert (Hp : 0 < 2 * (r * alpha)) by nra.
  assert (E1 : (- r + s) / (2 * (- r * alpha)) = (r - s) / (2 * (r * alpha)))
    by (field; lra).
  rewrite E1. unfold Rdisc in Hss.
  pose proof (Rinv_0_lt_compat _ Hp) as Hi.
  assert (Hra : 0 < r * alpha) by nra.
  split; intros H.
  - assert (Hrs : 0 < r - s).
    { destruct (Rlt_dec 0 (r - s)) as [|Hn]; [assumption|].
      exfalso. assert (r - s <= 0) by lra.
      assert ((r - s) * / (2 * (r * alpha)) <= 0) by nra.
      unfold Rdiv in H. lra. }
    assert (s * s < r * r) by nra.
    assert (0 < 4 * (r * alpha) * ln A) by lra.
    nra.
  - assert (0 < 4 * (r * alpha) * ln A) by nra.
    assert (s * s < r * r) by lra.
    assert (s < r) by nra.
    unfold Rdiv. apply Rmult_lt_0_compat; lra.
Qed.

Lemma t_half_analytic_larger (x1 x2 : float) (u1 u2 : R) :
  x1 =~ u1 -> x2 =~ u2 -> u1 <= u2 -> 0 < u2 ->
  t_half_analytic x1 x2 = x2.
Proof.
  intros H1 H2 Hle Hpos. unfold t_half_analytic, py_max, fgt.
  rewrite (flt_repr _ _ _ _ (repr_Fin 0) H1).
  rewrite (flt_repr _ _ _ _ (repr_Fin 0) H2).
  rewrite (flt_repr _ _ _ _ H1 H2).
  rewrite (Rltb_true 0 u2 Hpos), andb_true_r.
  destruct (Rlt_dec 0 u1) as [Hp|Hn].
  - rewrite (Rltb_true _ _ Hp).
    destruct (Rlt_dec u1 u2) as [Hlt|Hge].
    + rewrite (Rltb_true _ _ Hlt). reflexivity.
    + rewrite (Rltb_false _ _ Hge).
      assert (u1 = u2) by lra. subst u2.
      apply (repr_eq_nonzero x1 x2 u1 H1 H2). lra.
  - rewrite (Rltb_false _ _ Hn). reflexivity.
Qed.

(** With [r > 0] and [alpha > 0] the candidate is always the second root,
    which lies at or after the peak of the curve at [1 / (2 alpha)]. *)
Lemma solver_second_root (st : errstate) (self : CellularGrowthSimulator)
    (N0 r alpha A : float) (rr al aa tf : R) :
  r =~ rr -> alpha =~ al -> A =~ aa -> Tf self =~ tf ->
  0 < aa -> 0 < rr -> 0 < al -> 0 <= Rdisc rr al aa ->
  exists x2, x2 =~ Rroot2 rr al aa /\
    _calcular_tiempo_medio st self N0 r alpha A =
      Ok (if Rleb (Rroot2 rr al aa) tf then Some x2 else None).
Proof.
  intros Hr Ha HA HT Haa Hrr Hal Hd.
  assert (Hnz : rr * al <> 0) by nra.
  destruct (solver_regular st self N0 r alpha A rr al aa Hr Ha HA Haa Hnz Hd)
    as (d & x1 & x2 & _ & _ & _ & H1 & H2 & E).
  destruct (Rroots_ordered rr al aa Hrr Hal Hd) as [Hle Hpk].
  assert (Hpos : 0 < Rroot2 rr al aa).
  { apply Rlt_le_trans with (1 / (2 * al)); [|exact Hpk].
    apply Rdiv_lt_0_compat; lra. }
  rewrite (t_half_analytic_larger x1 x2 _ _ H1 H2 Hle Hpos) in E.
  rewrite (range_check_repr x2 (Tf self) _ _ H2 HT) in E.
  rewrite (Rltb_true _ _ Hpos) in E. cbn [andb] in E.
  exists x2. split; [exact H2 | exact E].
Qed.

(** ** The growth curves at [t = 0] and the range of the treated curve *)

(** C7. For every [N0 > 0] and [Td > 0] the untreated curve at [t = 0] is
    exactly [N0]: [2 ** (0 / Td)] is 1 and [exp(-0.02 * 0)] is 1, whatever
    the sign of the zero and whatever numpy's error state. *)
Theorem untreated_growth_at_zero (st : errstate) (t N0 Td_ : float)
    (n0 td : R) :
  t =~ 0 -> N0 =~ n0 -> Td_ =~ td -> 0 < n0 -> 0 < td ->
  _crecimiento_sin_tratamiento st t N0 Td_ = Ok N0.
Proof.
  intros Ht HN HT Hn0 Htd.
  destruct (untreated_repr st t N0 Td_ 0 n0 td Ht HN HT) as (y & -> & Hy);
    [lra|].
  rewrite Runtreated_at_0 in Hy.
  f_equal. apply (repr_eq_nonzero y N0 n0 Hy HN). lra.
Qed.

Lemma untreated_growth_at_zero_witness :
  _crecimiento_sin_tratamiento np_default (Fin 0) (Fin 50) (Fin (35 / 10))
    = Ok (Fin 50).
Proof.
  apply (untreated_growth_at_zero np_default (Fin 0) (Fin 50) (Fin (35 / 10))
           50 (35 / 10)).
  - split; reflexivity.
  - split; reflexivity.
  - split; reflexivity.
  - lra.
  - lra.
Defined.

(** C8. For every [N0 > 0], [K > 0], [r > 0] and [alpha >= 0] the treated
    curve at [t = 0] is [N0]: the exponential is 1, the denominator is
    [1 + A] with [A = (K - N0) / N0], and [K / (1 + A) = N0]. *)
Theorem treated_growth_at_zero (st : errstate) (t N0 Kc r alpha : float)
    (n0 k rr al : R) :
  t =~ 0 -> N0 =~ n0 -> Kc =~ k -> r =~ rr -> alpha =~ al ->
  0 < n0 -> 0 < k -> 0 < rr -> 0 <= al ->
  _crecimiento_con_tratamiento st t N0 Kc r alpha = Ok N0.
Proof.
  intros Ht HN HK Hr Ha Hn0 Hk Hrr Hal.
  destruct (treated_repr st t N0 Kc r alpha 0 n0 k rr al Ht HN HK Hr Ha)
    as (y & -> & Hy).
  - lra.
  - replace (- rr * 0 * (1 - al * 0)) with 0 by ring. rewrite exp_0.
    replace (1 + (k - n0) / n0 * 1) with (k / n0) by (field; lra).
    apply Rgt_not_eq, Rlt_gt, Rdiv_lt_0_compat; lra.
  - rewrite Rtreated_at_0 in Hy by lra.
    f_equal. apply (repr_eq_nonzero y N0 n0 Hy HN). lra.
Qed.

Lemma treated_growth_at_zero_witness :
  _crecimiento_con_tratamiento np_default (Fin 0) (Fin 50) (Fin 800)
    (Fin (25 / 100)) (Fin (1 / 100)) = Ok (Fin 50).
Proof.
  apply (treated_growth_at_zero np_default (Fin 0) (Fin 50) (Fin 800)
           (Fin (25 / 100)) (Fin (1 / 100)) 50 800 (25 / 100) (1 / 100)).
  - split; reflexivity.
  - split; reflexivity.
  - split; reflexivity.
  - split; reflexivity.
  - split; reflexivity.
  - lra.
  - lra.
  - lra.
  - lra.
Defined.

(** C10, as amended.  In exact real arithmetic, for every [0 < N0 < K],
    [r > 0], [alpha >= 0] and every finite [t], the treated curve is
    evaluated without an exception and its value lies strictly between 0
    and [K]: the denominator is greater than 1.  In binary64 the two bounds
    are attained, see [B64Facts.treated_growth_binary64_attains_bounds]. *)
Theorem treated_growth_strictly_bounded (st : errstate)
    (t N0 Kc r alpha : float) (tt n0 k rr al : R) :
  t =~ tt -> N0 =~ n0 -> Kc =~ k -> r =~ rr -> alpha =~ al ->
  0 < n0 -> n0 < k -> 0 < rr -> 0 <= al ->
  exists y v, _crecimiento_con_tratamiento st t N0 Kc r alpha = Ok y /\
              y =~ v /\ 0 < v < k.
Proof.
  intros Ht HN HK Hr Ha Hn0 Hk Hrr Hal.
  destruct (Rtreated_bounds tt n0 k rr al Hn0 Hk) as [Hd Hb].
  destruct (treated_repr st t N0 Kc r alpha tt n0 k rr al Ht HN HK Hr Ha)
    as (y & E & Hy); [lra | lra |].
  exists y, (Rtreated tt n0 k rr al). auto.
Qed.

Lemma treated_growth_strictly_bounded_witness :
  exists y v,
    _crecimiento_con_tratamiento np_default (Fin 120) (Fin 50) (Fin 800)
      (Fin (25 / 100)) (Fin (1 / 100)) = Ok y /\ y =~ v /\ 0 < v < 800.
Proof.
  apply (treated_growth_strictly_bounded np_default (Fin 120) (Fin 50)
           (Fin 800) (Fin (25 / 100)) (Fin (1 / 100))
           120 50 800 (25 / 100) (1 / 100)).
  - split; reflexivity.
  - split; reflexivity.
  - split; reflexivity.
  - split; reflexivity.
  - split; reflexivity.
  - lra.
  - lra.
  - lra.
  - lra.
Defined.

(** ** The solver: outcomes without a value *)

Lemma A_auto_repr (self : CellularGrowthSimulator) (N0 : float) (k n0 : R) :
  K self =~ k -> N0 =~ n0 -> n0 <> 0 ->
  exists A, A_auto self N0 = Ok A /\ A =~ (k - n0) / n0.
Proof.
  intros HK HN Hn0. unfold A_auto.
  apply py_div_repr; [apply py_sub_repr; assumption | exact HN | exact Hn0].
Qed.

Lemma solver_nonpositive_A (st : errstate) (self : CellularGrowthSimulator)
    (N0 r alpha A : float) (rr al aa : R) :
  r =~ rr -> alpha =~ al -> A =~ aa -> finite (Tf self) = true -> aa <= 0 ->
  _calcular_tiempo_medio st self N0 r alpha A = Ok None.
Proof.
  intros Hr Ha HA HT Haa. destruct (Req_dec_T aa 0) as [->|Hnz].
  - apply (solver_log_zero st self N0 r alpha A rr al); assumption.
  - apply (solver_log_negative st self N0 r alpha A aa); [assumption | lra].
Qed.

(** C5. For every input with [A <= 0] the solver returns no value and does
    not raise: directly for any finite [A <= 0], and through
    [A = (K - N0) / N0] for every [N0 >= K > 0] ([A = 0] when [N0 = K],
    [A < 0] when [N0 > K]). *)
Theorem no_crossing_when_A_nonpositive (st : errstate)
    (self : CellularGrowthSimulator) (N0 r alpha A : float)
    (k n0 rr al aa tf : R) :
  K self =~ k -> Tf self =~ tf -> N0 =~ n0 -> r =~ rr -> alpha =~ al ->
  A =~ aa -> aa <= 0 -> 0 < k -> k <= n0 ->
  _calcular_tiempo_medio st self N0 r alpha A = Ok None /\
  t_half_of_update_plot st self N0 r alpha = Ok None.
Proof.
  intros HK HT HN Hr Ha HA Haa Hk Hkn.
  pose proof (repr_finite _ _ HT) as HTf.
  split.
  - apply (solver_nonpositive_A st self N0 r alpha A rr al aa); assumption.
  - unfold t_half_of_update_plot.
    destruct (A_auto_repr self N0 k n0 HK HN) as (A' & -> & HA'); [lra|].
    cbn [bind].
    apply (solver_nonpositive_A st self N0 r alpha A' rr al _ Hr Ha HA' HTf).
    unfold Rdiv. assert (0 < / n0) by (apply Rinv_0_lt_compat; lra). nra.
Qed.

Lemma no_crossing_when_A_nonpositive_witness :
  _calcular_tiempo_medio np_default default_simulator (Fin 900)
    (Fin (25 / 100)) (Fin (1 / 100)) (Fin (- (1 / 9))) = Ok None /\
  t_half_of_update_plot np_default default_simulator (Fin 900)
    (Fin (25 / 100)) (Fin (1 / 100)) = Ok None.
Proof.
  apply (no_crossing_when_A_nonpositive np_default default_simulator
           (Fin 900) (Fin (25 / 100)) (Fin (1 / 100)) (Fin (- (1 / 9)))
           800 900 (25 / 100) (1 / 100) (- (1 / 9)) 40).
  - split; reflexivity.
  - split; reflexivity.
  - split; reflexivity.
  - split; reflexivity.
  - split; reflexivity.
  - split; reflexivity.
  - lra.
  - lra.
  - lra.
Defined.


Lemma ln_15_gt_1 : 1 < ln 15.
Proof.
  rewrite <- (ln_exp 1) at 1. apply ln_increasing; [apply exp_pos|].
  pose proof exp_le_3. lra.
Qed.


(** C9. For every [r > 0], [A > 0] and finite [Tf], when [alpha] is zero
    the solver returns no value: [a_param] is a zero, both quotients by
    [2 * a_param] are an infinity or NaN (or the division raises, which is
    caught), and no linear fallback [ln(A) / r] is attempted. *)
Theorem no_crossing_when_alpha_zero (st : errstate)
    (self : CellularGrowthSimulator) (N0 r alpha A : float) (rr aa tf : R) :
  r =~ rr -> alpha =~ 0 -> A =~ aa -> Tf self =~ tf ->
  0 < rr -> 0 < aa ->
  _calcular_tiempo_medio st self N0 r alpha A = Ok None.
Proof.
  intros Hr Ha HA HT Hrr Haa.
  apply (solver_degenerate st self N0 r alpha A rr 0 aa);
    try assumption; [exact (repr_finite _ _ HT) | ring].
Qed.

Lemma no_crossing_when_alpha_zero_witness :
  _calcular_tiempo_medio np_default default_simulator (Fin 50)
    (Fin (25 / 100)) (Fin 0) (Fin 15) = Ok None.
Proof.
  apply (no_crossing_when_alpha_zero np_default default_simulator (Fin 50)
           (Fin (25 / 100)) (Fin 0) (Fin 15) (25 / 100) 15 40).
  - split; reflexivity.
  - split; reflexivity.
  - split; reflexivity.
  - split; reflexivity.
  - lra.
  - lra.
Defined.

(** ** The solver: totality *)

(** The handler is not idle: with an error state that raises on invalid
    operations the body raises on a negative [A], and the function still
    returns. *)
Example body_raises_on_negative_A :
  let st := {| divide_raises := true; invalid_raises := true |} in
  tiempo_medio_body st default_simulator (Fin 900) (Fin (25 / 100))
    (Fin (1 / 100)) (Fin (- (1 / 9))) = Raise FloatingPointError /\
  _calcular_tiempo_medio st default_simulator (Fin 900) (Fin (25 / 100))
    (Fin (1 / 100)) (Fin (- (1 / 9))) = Ok None.
Proof.
  assert (E : ieee_log (Fin (- (1 / 9))) = (NaN, FlagInvalid)).
  { unfold ieee_log. rewrite (classify_nonzero _ _ (repr_Fin _)) by lra.
    unfold Rneg.
    destruct (Rlt_dec (- (1 / 9)) 0); [reflexivity | exfalso; lra]. }
  cbv zeta.
  unfold _calcular_tiempo_medio, tiempo_medio_body, discriminant, c_param,
    np_log.
  rewrite E. split; reflexivity.
Qed.



(** ** The solver: what a returned value is *)

Lemma exp_1_gt_2 : 2 < exp 1.
Proof. pose proof (exp_ineq1 1). lra. Qed.

Lemma ln_15_lt_4 : ln 15 < 4.
Proof.
  rewrite <- (ln_exp 4). apply ln_increasing; [lra|].
  replace 4 with (1 + 1 + (1 + 1)) by lra. rewrite !exp_plus.
  pose proof exp_1_gt_2 as H.
  assert (H2 : 4 < exp 1 * exp 1) by nra.
  nra.
Qed.

(** C2. Soundness of the solver: for [N0 > 0], [K > 0], [r > 0],
    [alpha >= 0], [Tf > 0] and [A = (K - N0) / N0], a returned [t] satisfies
    [0 < t <= Tf] and the treated curve at [t] is [K / 2]. *)
Theorem solver_sound (st : errstate) (self : CellularGrowthSimulator)
    (N0 r alpha A t : float) (n0 k rr al tf : R) :
  N0 =~ n0 -> K self =~ k -> r =~ rr -> alpha =~ al -> Tf self =~ tf ->
  0 < n0 -> 0 < k -> 0 < rr -> 0 <= al -> 0 < tf ->
  A_auto self N0 = Ok A ->
  _calcular_tiempo_medio st self N0 r alpha A = Ok (Some t) ->
  exists tt y,
    t =~ tt /\ 0 < tt <= tf /\
    _crecimiento_con_tratamiento st t N0 (K self) r alpha = Ok y /\
    y =~ k / 2.
Proof.
  intros HN HK Hr Ha HT Hn0 Hk Hrr Hal Htf EA Et.
  pose proof (repr_finite _ _ HT) as HTf.
  destruct (A_auto_repr self N0 k n0 HK HN) as (A' & EA' & HA); [lra|].
  rewrite EA in EA'. injection EA' as <-.
  set (aa := (k - n0) / n0) in *.
  destruct (Rle_dec aa 0) as [Hle|Hpos].
  { rewrite (solver_nonpositive_A st self N0 r alpha A rr al aa) in Et;
      try assumption. discriminate. }
  assert (Haa : 0 < aa) by lra.
  assert (Hnk : n0 < k).
  { destruct (Rlt_dec n0 k) as [|Hge]; [assumption|]. exfalso.
    assert (0 < / n0) by (apply Rinv_0_lt_compat; lra).
    unfold aa, Rdiv in Haa. nra. }
  destruct (Req_dec_T al 0) as [Hz|Hnz].
  { rewrite (solver_degenerate st self N0 r alpha A rr al aa) in Et;
      try assumption; [discriminate | subst al; ring]. }
  assert (Hra : rr * al <> 0) by nra.
  destruct (Rlt_dec (Rdisc rr al aa) 0) as [Hneg|Hd].
  { rewrite (solver_negative_discriminant st self N0 r alpha A rr al aa) in Et;
      try assumption. discriminate. }
  assert (Hdisc : 0 <= Rdisc rr al aa) by lra.
  destruct (solver_regular st self N0 r alpha A rr al aa Hr Ha HA Haa Hra Hdisc)
    as (d & x1 & x2 & _ & _ & _ & H1 & H2 & E).
  rewrite E in Et.
  assert (Hroot : exists tt, t =~ tt /\ 0 < tt <= tf /\
            - rr * al * (tt * tt) + rr * tt + - ln aa = 0).
  { destruct (t_half_analytic_cases x1 x2) as [Ec|Ec]; rewrite Ec in Et.
    - rewrite (range_check_repr x1 (Tf self) _ _ H1 HT) in Et.
      destruct (Rltb 0 _ && Rleb _ tf) eqn:Ck; [|discriminate].
      injection Et as <-. apply andb_prop in Ck. destruct Ck as [C1 C2].
      exists (Rroot1 rr al aa). split; [exact H1|]. split.
      + split; [apply Rltb_spec, C1 | apply Rleb_spec, C2].
      + apply Rroot1_is_root; assumption.
    - rewrite (range_check_repr x2 (Tf self) _ _ H2 HT) in Et.
      destruct (Rltb 0 _ && Rleb _ tf) eqn:Ck; [|discriminate].
      injection Et as <-. apply andb_prop in Ck. destruct Ck as [C1 C2].
      exists (Rroot2 rr al aa). split; [exact H2|]. split.
      + split; [apply Rltb_spec, C1 | apply Rleb_spec, C2].
      + apply Rroot2_is_root; assumption. }
  destruct Hroot as (tt & Htt & Hrange & Hq).
  destruct (Rtreated_bounds tt n0 k rr al Hn0 Hnk) as [Hden _].
  destruct (treated_repr st t N0 (K self) r alpha tt n0 k rr al
              Htt HN HK Hr Ha) as (y & Ey & Hy); [lra | lra |].
  exists tt, y. repeat (split; [assumption|]).
  rewrite (root_half_capacity tt n0 k rr al Hn0 Hnk Hq) in Hy. exact Hy.
Qed.

Lemma Rroot2_upper (r alpha A : R) :
  0 < r -> 0 < alpha -> 0 <= ln A -> 0 <= Rdisc r alpha A ->
  Rroot2 r alpha A <= 1 / alpha.
Proof.
  intros Hr Ha Hl Hd. unfold Rroot2.
  pose proof (sqrt_pos (Rdisc r alpha A)) as Hs.
  pose proof (sqrt_sqrt _ Hd) as Hss.
  set (s := sqrt _) in *. unfold Rdisc in Hss.
  assert (Hra : 0 < r * alpha) by nra.
  assert (Hsr : s <= r).
  { destruct (Rle_dec s r) as [|Hn]; [assumption|]. exfalso.
    assert (r * r < s * s) by nra.
    assert (0 <= 4 * (r * alpha) * ln A) by nra. lra. }
  assert (E2 : (- r - s) / (2 * (- r * alpha)) = (r + s) / (2 * (r * alpha)))
    by (field; lra).
  assert (E3 : 1 / alpha = (2 * r) / (2 * (r * alpha))) by (field; lra).
  rewrite E2, E3. unfold Rdiv.
  assert (Hi : 0 < / (2 * (r * alpha))) by (apply Rinv_0_lt_compat; lra).
  apply Rmult_le_compat_r; lra.
Qed.

Lemma default_A_is_15 : (800 - 50) / 50 = 15.
Proof. lra. Qed.

Lemma solver_sound_witness :
  exists A t tt y,
    A_auto default_simulator (Fin 50) = Ok A /\
    _calcular_tiempo_medio np_default default_simulator (Fin 50) (Fin 1)
      (Fin (5 / 100)) A = Ok (Some t) /\
    t =~ tt /\ 0 < tt <= 40 /\
    _crecimiento_con_tratamiento np_default t (Fin 50) (Fin 800) (Fin 1)
      (Fin (5 / 100)) = Ok y /\
    y =~ 800 / 2.
Proof.
  destruct (A_auto_repr default_simulator (Fin 50) 800 50
              (repr_Fin 800) (repr_Fin 50)) as (A & EA & HA); [lra|].
  rewrite default_A_is_15 in HA.
  pose proof ln_15_gt_1 as Hl1. pose proof ln_15_lt_4 as Hl4.
  assert (Hd : 0 <= Rdisc 1 (5 / 100) 15) by (unfold Rdisc; lra).
  destruct (solver_second_root np_default default_simulator (Fin 50) (Fin 1)
              (Fin (5 / 100)) A 1 (5 / 100) 15 40)
    as (x2 & H2 & E); try (split; reflexivity); try lra; try assumption.
  assert (Hup : Rroot2 1 (5 / 100) 15 <= 40).
  { apply Rle_trans with (1 / (5 / 100)); [apply Rroot2_upper; lra | lra]. }
  rewrite (Rleb_true _ _ Hup) in E.
  destruct (solver_sound np_default default_simulator (Fin 50) (Fin 1)
              (Fin (5 / 100)) A x2 50 800 1 (5 / 100) 40)
    as (tt & y & Htt & Hr & Ey & Hy).
  - split; reflexivity.
  - split; reflexivity.
  - split; reflexivity.
  - split; reflexivity.
  - split; reflexivity.
  - lra.
  - lra.
  - lra.
  - lra.
  - lra.
  - exact EA.
  - exact E.
  - exists A, x2, tt, y. repeat (split; [assumption|]). exact Hy.
Defined.

(** ** The root-selection policy *)





(** ** The default parameter set *)

(** When the horizon ends before the peak of the curve at [1 / (2 alpha)],
    the selected root is out of range and nothing is returned. *)
Lemma solver_horizon_before_peak (st : errstate)
    (self : CellularGrowthSimulator) (N0 r alpha A : float)
    (rr al aa tf : R) :
  r =~ rr -> alpha =~ al -> A =~ aa -> Tf self =~ tf ->
  0 < aa -> 0 < rr -> 0 < al -> tf < 1 / (2 * al) ->
  _calcular_tiempo_medio st self N0 r alpha A = Ok None.
Proof.
  intros Hr Ha HA HT Haa Hrr Hal Htf.
  destruct (Rlt_dec (Rdisc rr al aa) 0) as [Hneg|Hd].
  - apply (solver_negative_discriminant st self N0 r alpha A rr al aa);
      assumption.
  - assert (Hdisc : 0 <= Rdisc rr al aa) by lra.
    destruct (solver_second_root st self N0 r alpha A rr al aa tf
                Hr Ha HA HT Haa Hrr Hal Hdisc) as (x2 & _ & ->).
    destruct (Rroots_ordered rr al aa Hrr Hal Hdisc) as [_ Hpk].
    rewrite Rleb_false by lra. reflexivity.
Qed.

Lemma default_solver_none (st : errstate) :
  t_half_of_update_plot st default_simulator (Fin 50) (Fin (25 / 100))
    (Fin (1 / 100)) = Ok None.
Proof.
  destruct (A_auto_repr default_simulator (Fin 50) 800 50
              (repr_Fin 800) (repr_Fin 50)) as (A & EA & HA); [lra|].
  rewrite default_A_is_15 in HA.
  unfold t_half_of_update_plot. rewrite EA. cbn [bind].
  apply (solver_horizon_before_peak st default_simulator (Fin 50)
           (Fin (25 / 100)) (Fin (1 / 100)) A (25 / 100) (1 / 100) 15 40);
    try (split; reflexivity); try assumption; lra.
Qed.

(** C1, as the code behaves.  For [K = 800], [N0 = 50], [r = 0.25],
    [alpha = 0.01], [Tf = 40] the solver returns no value: both roots are
    positive, the larger one is selected, and it is at least
    [1 / (2 alpha) = 50 > Tf].  The smaller root [t1] that the code computes
    does satisfy [0 < t1 <= 40] with the treated curve at [t1] equal to
    [400 = K / 2], but it is not the one returned. *)
Theorem default_half_capacity_time (st : errstate) :
  t_half_of_update_plot st default_simulator (Fin 50) (Fin (25 / 100))
    (Fin (1 / 100)) = Ok None /\
  exists A d x1 u1 y,
    A_auto default_simulator (Fin 50) = Ok A /\
    discriminant st (Fin (25 / 100)) (Fin (1 / 100)) A = Ok d /\
    t1 st (Fin (25 / 100)) (Fin (1 / 100)) d = Ok x1 /\
    x1 =~ u1 /\ 0 < u1 <= 40 /\
    _crecimiento_con_tratamiento st x1 (Fin 50) (Fin 800) (Fin (25 / 100))
      (Fin (1 / 100)) = Ok y /\
    y =~ 400.
Proof.
  destruct (A_auto_repr default_simulator (Fin 50) 800 50
              (repr_Fin 800) (repr_Fin 50)) as (A & EA & HA); [lra|].
  pose proof HA as HA15. rewrite default_A_is_15 in HA15.
  pose proof ln_15_gt_1 as Hl1. pose proof ln_15_lt_4 as Hl4.
  split.
  - apply default_solver_none.
  - assert (Hd : 0 <= Rdisc (25 / 100) (1 / 100) 15) by (unfold Rdisc; lra).
    assert (Hnz : 25 / 100 * (1 / 100) <> 0) by lra.
    destruct (solver_regular st default_simulator (Fin 50) (Fin (25 / 100))
                (Fin (1 / 100)) A (25 / 100) (1 / 100) 15
                (repr_Fin _) (repr_Fin _) HA15 ltac:(lra) Hnz Hd)
      as (d & x1 & x2 & Ed & E1 & _ & H1 & _ & _).
    set (u1 := Rroot1 (25 / 100) (1 / 100) 15) in *.
    assert (Hpos : 0 < u1).
    { apply Rroot1_positive_iff; lra. }
    assert (Hup : u1 <= 40).
    { unfold u1, Rroot1.
      pose proof (sqrt_pos (Rdisc (25 / 100) (1 / 100) 15)) as Hs.
      pose proof (sqrt_sqrt _ Hd) as Hss.
      set (s := sqrt _) in *. unfold Rdisc in Hss.
      assert (5 / 100 <= s).
      { destruct (Rle_dec (5 / 100) s) as [|Hn]; [assumption|]. exfalso.
        assert (s * s < 25 / 10000) by nra. lra. }
      replace ((- (25 / 100) + s) / (2 * (- (25 / 100) * (1 / 100))))
        with ((25 / 100 - s) * 200) by field.
      lra. }
    assert (Hq : - (25 / 100) * (1 / 100) * (u1 * u1) + 25 / 100 * u1
                 + - ln ((800 - 50) / 50) = 0).
    { rewrite default_A_is_15. apply Rroot1_is_root; assumption. }
    destruct (Rtreated_bounds u1 50 800 (25 / 100) (1 / 100)) as [Hden _];
      [lra | lra |].
    destruct (treated_repr st x1 (Fin 50) (Fin 800) (Fin (25 / 100))
                (Fin (1 / 100)) u1 50 800 (25 / 100) (1 / 100)
                H1 (repr_Fin _) (repr_Fin _) (repr_Fin _) (repr_Fin _))
      as (y & Ey & Hy); [lra | lra |].
    rewrite (root_half_capacity u1 50 800 _ _) in Hy by (lra || exact Hq).
    exists A, d, x1, u1, y. repeat (split; [assumption|]).
    split; [split; assumption|]. split; [exact Ey|].
    apply (repr_ext y _ _ Hy). lra.
Qed.

(** C1 as stated fails: on the default parameter set the solver does not
    return a time at all. *)
Lemma default_half_capacity_time_is_none :
  ~ exists t tt y,
      t_half_of_update_plot np_default default_simulator (Fin 50)
        (Fin (25 / 100)) (Fin (1 / 100)) = Ok (Some t) /\
      t =~ tt /\ 0 < tt <= 40 /\
      _crecimiento_con_tratamiento np_default t (Fin 50) (Fin 800)
        (Fin (25 / 100)) (Fin (1 / 100)) = Ok y /\
      Rabs (fval y - 400) <= 400 * (1 / 1000000).
Proof.
  intros (t & tt & y & E & _).
  rewrite (default_solver_none np_default) in E. discriminate.
Qed.

(** ** Two traces through the special values *)

(** [alpha = 0.0] with the default [r] and [A = 15]: [a_param] is -0.0, the
    first quotient is 0.0 / -0.0 = NaN, the second is -0.5 / -0.0 = +inf,
    the candidate is +inf and the range check rejects it. *)
Example alpha_zero_trace :
  a_param (Fin (25 / 100)) (Fin 0) = NZero /\
  exists d,
    discriminant np_default (Fin (25 / 100)) (Fin 0) (Fin 15) = Ok d /\
    d =~ 25 / 100 * (25 / 100) /\
    t1 np_default (Fin (25 / 100)) (Fin 0) d = Ok NaN /\
    t2 np_default (Fin (25 / 100)) (Fin 0) d = Ok PInf /\
    t_half_analytic NaN PInf = PInf /\
    fle PInf (Fin 40) = false.
Proof.
  assert (Ea : a_param (Fin (25 / 100)) (Fin 0) = NZero).
  { cbv [a_param py_mul py_neg fneg ieee_mul classify zero quiet fst xorb
         negb Rneg].
    split_reals; try (exfalso; lra); reflexivity. }
  split; [exact Ea|].
  destruct (discriminant_repr np_default (Fin (25 / 100)) (Fin 0) (Fin 15)
              (25 / 100) 0 15 (repr_Fin _) (repr_Fin _) (repr_Fin _))
    as (d & Ed & Hd); [lra|].
  assert (Hdd : Rdisc (25 / 100) 0 15 = 25 / 100 * (25 / 100))
    by (unfold Rdisc; ring).
  rewrite Hdd in Hd.
  assert (Hs : sqrt (25 / 100 * (25 / 100)) = 25 / 100)
    by (apply sqrt_square; lra).
  assert (Cd : classify d = CNum (25 / 100 * (25 / 100)))
    by (apply classify_nonzero; [exact Hd | lra]).
  assert (Eden : py_mul (Fin 2) NZero = NZero).
  { cbv [py_mul ieee_mul classify zero quiet fst xorb Rneg].
    split_reals; try (exfalso; lra); reflexivity. }
  assert (Esq : np_sqrt np_default d = Ok (Fin (25 / 100))).
  { unfold np_sqrt, ieee_sqrt. rewrite Cd. unfold Rneg.
    destruct (Rlt_dec _ 0); [exfalso; lra|]. rewrite Hs. reflexivity. }
  exists d. split; [exact Ed|]. split; [exact Hd|].
  split; [|split; [|split]].
  - unfold t1, b_param. rewrite Esq, Ea, Eden. cbn [bind].
    cbv [np_add np_div np_signal py_neg fneg ieee_add ieee_div classify
         quiet invalid zero inf fst snd bind np_default invalid_raises
         divide_raises xorb negb Rneg].
    split_reals; try (exfalso; lra); reflexivity.
  - unfold t2, b_param. rewrite Esq, Ea, Eden. cbn [bind].
    cbv [np_sub np_div np_signal py_neg fneg ieee_sub ieee_add ieee_div
         classify quiet invalid zero inf fst snd bind np_default
         invalid_raises divide_raises xorb negb Rneg].
    split_reals; try (exfalso; lra); reflexivity.
  - reflexivity.
  - reflexivity.
Qed.

(** [N0 = K = 800]: [A] is +0.0, its logarithm -inf, [c_param] +inf and the
    discriminant +inf; the quotients are -inf and +inf, the candidate is
    +inf and the range check rejects it. *)
Example N0_equals_K_trace :
  A_auto default_simulator (Fin 800) = Ok (Fin 0) /\
  c_param np_default (Fin 0) = Ok PInf /\
  discriminant np_default (Fin (25 / 100)) (Fin (1 / 100)) (Fin 0) = Ok PInf /\
  t1 np_default (Fin (25 / 100)) (Fin (1 / 100)) PInf = Ok NInf /\
  t2 np_default (Fin (25 / 100)) (Fin (1 / 100)) PInf = Ok PInf /\
  t_half_analytic NInf PInf = PInf /\
  t_half_of_update_plot np_default default_simulator (Fin 800)
    (Fin (25 / 100)) (Fin (1 / 100)) = Ok None.
Proof.
  assert (EA : A_auto default_simulator (Fin 800) = Ok (Fin 0)).
  { cbv [A_auto py_div py_sub is_zero ieee_sub ieee_add ieee_div fneg
         classify default_simulator K quiet zero fst xorb negb andb Rneg].
    split_reals; try (exfalso; lra); reflexivity. }
  assert (Ec : c_param np_default (Fin 0) = Ok PInf).
  { cbv [c_param np_log ieee_log np_signal classify snd fst bind np_default
         divide_raises fneg inf negb].
    split_reals; try (exfalso; lra); reflexivity. }
  assert (Ed : discriminant np_default (Fin (25 / 100)) (Fin (1 / 100)) (Fin 0)
               = Ok PInf).
  { unfold discriminant. rewrite Ec. cbn [bind].
    cbv [np_mul np_sub np_signal py_mul py_pow2 py_neg a_param b_param fneg
         ieee_mul ieee_sub ieee_add classify quiet invalid zero inf fst snd
         bind np_default invalid_raises divide_raises xorb negb eqb Rneg].
    split_reals; try (exfalso; lra); try (exfalso; nra); reflexivity. }
  repeat (split; [assumption|]).
  split; [|split; [|split]].
  - cbv [t1 np_sqrt np_add np_div np_signal py_mul py_neg a_param b_param
         fneg ieee_sqrt ieee_mul ieee_add ieee_div classify quiet invalid
         zero inf fst snd bind np_default invalid_raises divide_raises xorb
         negb eqb Rneg].
    split_reals; try (exfalso; lra); try (exfalso; nra); reflexivity.
  - cbv [t2 np_sqrt np_sub np_div np_signal py_mul py_neg a_param b_param
         fneg ieee_sqrt ieee_mul ieee_sub ieee_add ieee_div classify quiet
         invalid zero inf fst snd bind np_default invalid_raises
         divide_raises xorb negb eqb Rneg].
    split_reals; try (exfalso; lra); try (exfalso; nra); reflexivity.
  - reflexivity.
  - unfold t_half_of_update_plot. rewrite EA. cbn [bind].
    apply (solver_log_zero np_default default_simulator (Fin 800)
             (Fin (25 / 100)) (Fin (1 / 100)) (Fin 0) (25 / 100) (1 / 100));
      split; reflexivity.
Qed.

(** ** Further properties of the solver *)

Lemma finite_of_bounds (t tf : float) :
  fgt t (Fin 0) = true -> fle t tf = true -> finite tf = true ->
  finite t = true.
Proof.
  intros Hg Hl Hf. destruct t; try reflexivity; try discriminate;
    destruct tf; discriminate.
Qed.

(** X1. Whatever the inputs (finite or not) and the error state, a returned
    time has passed the range check: it is greater than 0 and at most [Tf]
    as floats, hence it is never NaN, and it is finite whenever [Tf] is. *)
Theorem solver_result_in_range (st : errstate)
    (self : CellularGrowthSimulator) (N0 r alpha A t : float) :
  _calcular_tiempo_medio st self N0 r alpha A = Ok (Some t) ->
  fgt t (Fin 0) = true /\ fle t (Tf self) = true /\ t <> NaN /\
  (finite (Tf self) = true -> finite t = true).
Proof.
  unfold _calcular_tiempo_medio, try_except, tiempo_medio_body.
  destruct (discriminant st r alpha A) as [d|e]; cbn [bind]; [|discriminate].
  destruct (fge d (Fin 0)); [|discriminate].
  destruct (t1 st r alpha d) as [x1|e1]; cbn [bind]; [|discriminate].
  destruct (t2 st r alpha d) as [x2|e2]; cbn [bind]; [|discriminate].
  destruct (fgt _ _ && fle _ _) eqn:Ck; [|discriminate].
  intros E. injection E as <-.
  apply andb_prop in Ck. destruct Ck as [Hg Hl].
  repeat split; try assumption.
  - intros Hn. rewrite Hn in Hg. discriminate.
  - intros Hf. apply (finite_of_bounds _ _ Hg Hl Hf).
Qed.

Lemma Rroot2_pos (r alpha A : R) :
  0 < r -> 0 < alpha -> 0 <= Rdisc r alpha A -> 0 < Rroot2 r alpha A.
Proof.
  intros Hr Ha Hd. destruct (Rroots_ordered r alpha A Hr Ha Hd) as [_ Hpk].
  apply Rlt_le_trans with (1 / (2 * alpha)); [|exact Hpk].
  apply Rdiv_lt_0_compat; lra.
Qed.

(** A parameter set of the slider ranges on which the solver returns a
    time: [r = 1], [alpha = 0.05], [A = 15], [Tf = 40]. *)
Lemma solver_returns_example :
  exists x2,
    x2 =~ Rroot2 1 (5 / 100) 15 /\ 0 <= Rdisc 1 (5 / 100) 15 /\
    Rroot2 1 (5 / 100) 15 <= 40 /\
    _calcular_tiempo_medio np_default default_simulator (Fin 50) (Fin 1)
      (Fin (5 / 100)) (Fin 15) = Ok (Some x2).
Proof.
  pose proof ln_15_gt_1 as Hl1. pose proof ln_15_lt_4 as Hl4.
  assert (Hd : 0 <= Rdisc 1 (5 / 100) 15) by (unfold Rdisc; lra).
  assert (Hup : Rroot2 1 (5 / 100) 15 <= 40).
  { apply Rle_trans with (1 / (5 / 100)); [apply Rroot2_upper; lra | lra]. }
  destruct (solver_second_root np_default default_simulator (Fin 50) (Fin 1)
              (Fin (5 / 100)) (Fin 15) 1 (5 / 100) 15 40)
    as (x2 & H2 & E); try (split; reflexivity); try lra; try assumption.
  rewrite (Rleb_true _ _ Hup) in E.
  exists x2. repeat (split; [assumption|]). exact E.
Defined.

Lemma solver_result_in_range_witness :
  exists t,
    _calcular_tiempo_medio np_default default_simulator (Fin 50) (Fin 1)
      (Fin (5 / 100)) (Fin 15) = Ok (Some t) /\
    fgt t (Fin 0) = true /\ fle t (Fin 40) = true /\ t <> NaN /\
    finite t = true.
Proof.
  destruct solver_returns_example as (x2 & _ & _ & _ & E).
  destruct (solver_result_in_range np_default default_simulator (Fin 50)
              (Fin 1) (Fin (5 / 100)) (Fin 15) x2 E) as (Hg & Hl & Hn & Hf).
  exists x2. repeat (split; [assumption|]). apply Hf. reflexivity.
Defined.

(** X2. In exact real arithmetic (no rounding, overflow or underflow):
    with [r > 0], [alpha > 0], [A > 0] and a finite [Tf], the solver
    returns a time exactly when the discriminant is non-negative and the
    second root [(-b - sqrt disc) / (2a)] is at most [Tf]; the time returned
    is then that second root, whether or not the first root lies in
    [(0, Tf]]. *)
Theorem solver_returns_iff (st : errstate) (self : CellularGrowthSimulator)
    (N0 r alpha A t : float) (rr al aa tf : R) :
  r =~ rr -> alpha =~ al -> A =~ aa -> Tf self =~ tf ->
  0 < rr -> 0 < al -> 0 < aa ->
  (_calcular_tiempo_medio st self N0 r alpha A = Ok (Some t) <->
   0 <= Rdisc rr al aa /\ Rroot2 rr al aa <= tf /\ t =~ Rroot2 rr al aa).
Proof.
  intros Hr Ha HA HT Hrr Hal Haa.
  destruct (Rlt_dec (Rdisc rr al aa) 0) as [Hneg|Hnn].
  - rewrite (solver_negative_discriminant st self N0 r alpha A rr al aa)
      by assumption.
    split; [discriminate | intros [Hd _]; lra].
  - assert (Hd : 0 <= Rdisc rr al aa) by lra.
    destruct (solver_second_root st self N0 r alpha A rr al aa tf
                Hr Ha HA HT Haa Hrr Hal Hd) as (x2 & H2 & ->).
    pose proof (Rroot2_pos rr al aa Hrr Hal Hd) as Hpos.
    destruct (Rle_dec (Rroot2 rr al aa) tf) as [Hle|Hgt].
    + rewrite (Rleb_true _ _ Hle). split.
      * intros E. injection E as <-. auto.
      * intros (_ & _ & Ht). do 2 f_equal.
        apply (repr_eq_nonzero x2 t _ H2 Ht). lra.
    + rewrite (Rleb_false _ _ Hgt).
      split; [discriminate | intros (_ & Hle & _); contradiction].
Qed.

Lemma solver_returns_iff_witness :
  exists t,
    _calcular_tiempo_medio np_default default_simulator (Fin 50) (Fin 1)
      (Fin (5 / 100)) (Fin 15) = Ok (Some t) /\
    t =~ Rroot2 1 (5 / 100) 15.
Proof.
  destruct solver_returns_example as (x2 & H2 & Hd & Hup & E).
  exists x2. split; [|exact H2].
  apply (solver_returns_iff np_default default_simulator (Fin 50) (Fin 1)
           (Fin (5 / 100)) (Fin 15) x2 1 (5 / 100) 15 40).
  - split; reflexivity.
  - split; reflexivity.
  - split; reflexivity.
  - split; reflexivity.
  - lra.
  - lra.
  - lra.
  - repeat (split; [assumption|]). exact H2.
Defined.

(** X3. In exact real arithmetic (no rounding, overflow or underflow):
    with [r > 0], [alpha > 0] and [A > 0], a returned time is never
    before the peak of the treated curve at [1 / (2 alpha)]; when moreover
    [A >= 1] (that is [N0 <= K / 2]) it is at most [1 / alpha]. *)
Theorem returned_time_after_peak (st : errstate)
    (self : CellularGrowthSimulator) (N0 r alpha A t : float)
    (rr al aa tf : R) :
  r =~ rr -> alpha =~ al -> A =~ aa -> Tf self =~ tf ->
  0 < rr -> 0 < al -> 0 < aa ->
  _calcular_tiempo_medio st self N0 r alpha A = Ok (Some t) ->
  1 / (2 * al) <= fval t /\ (1 <= aa -> fval t <= 1 / al).
Proof.
  intros Hr Ha HA HT Hrr Hal Haa E.
  destruct (Rlt_dec (Rdisc rr al aa) 0) as [Hneg|Hnn].
  { rewrite (solver_negative_discriminant st self N0 r alpha A rr al aa)
      in E by assumption. discriminate. }
  assert (Hd : 0 <= Rdisc rr al aa) by lra.
  destruct (solver_second_root st self N0 r alpha A rr al aa tf
              Hr Ha HA HT Haa Hrr Hal Hd) as (x2 & H2 & E2).
  rewrite E2 in E. destruct (Rleb _ tf); [|discriminate].
  injection E as <-. destruct H2 as [_ ->].
  destruct (Rroots_ordered rr al aa Hrr Hal Hd) as [_ Hpk].
  split; [exact Hpk|].
  intros H1. apply Rroot2_upper; try assumption.
  rewrite <- ln_1. destruct H1 as [H1|<-]; [|lra].
  left. apply ln_increasing; lra.
Qed.

Lemma returned_time_after_peak_witness :
  exists t,
    _calcular_tiempo_medio np_default default_simulator (Fin 50) (Fin 1)
      (Fin (5 / 100)) (Fin 15) = Ok (Some t) /\
    1 / (2 * (5 / 100)) <= fval t /\ fval t <= 1 / (5 / 100).
Proof.
  destruct solver_returns_example as (x2 & _ & _ & _ & E).
  destruct (returned_time_after_peak np_default default_simulator (Fin 50)
              (Fin 1) (Fin (5 / 100)) (Fin 15) x2 1 (5 / 100) 15 40)
    as [Hlo Hhi].
  - split; reflexivity.
  - split; reflexivity.
  - split; reflexivity.
  - split; reflexivity.
  - lra.
  - lra.
  - lra.
  - exact E.
  - exists x2. split; [exact E|]. split; [exact Hlo | apply Hhi; lra].
Defined.

(** X4. In exact real arithmetic (no rounding, overflow or underflow):
    with [r > 0], [alpha > 0] and [A > 0], a horizon that ends before
    the peak, [Tf < 1 / (2 alpha)], leaves the solver without a value, even
    when the curve crosses [K / 2] on its way up inside the horizon. *)
Theorem no_value_when_horizon_before_peak (st : errstate)
    (self : CellularGrowthSimulator) (N0 r alpha A : float)
    (rr al aa tf : R) :
  r =~ rr -> alpha =~ al -> A =~ aa -> Tf self =~ tf ->
  0 < rr -> 0 < al -> 0 < aa -> tf < 1 / (2 * al) ->
  _calcular_tiempo_medio st self N0 r alpha A = Ok None.
Proof.
  intros Hr Ha HA HT Hrr Hal Haa Htf.
  apply (solver_horizon_before_peak st self N0 r alpha A rr al aa tf);
    assumption.
Qed.

Lemma no_value_when_horizon_before_peak_witness :
  _calcular_tiempo_medio np_default default_simulator (Fin 100)
    (Fin (5 / 10)) (Fin (1 / 100)) (Fin 7) = Ok None.
Proof.
  apply (no_value_when_horizon_before_peak np_default default_simulator
           (Fin 100) (Fin (5 / 10)) (Fin (1 / 100)) (Fin 7)
           (5 / 10) (1 / 100) 7 40).
  - split; reflexivity.
  - split; reflexivity.
  - split; reflexivity.
  - split; reflexivity.
  - lra.
  - lra.
  - lra.
  - lra.
Defined.

(** The roots the code computes, read back from its own intermediate
    results. *)
Lemma computed_roots (st : errstate) (r alpha A d x1 x2 : float)
    (rr al aa : R) :
  r =~ rr -> alpha =~ al -> A =~ aa ->
  0 < aa -> rr * al <> 0 -> 0 <= Rdisc rr al aa ->
  discriminant st r alpha A = Ok d ->
  t1 st r alpha d = Ok x1 -> t2 st r alpha d = Ok x2 ->
  x1 =~ Rroot1 rr al aa /\ x2 =~ Rroot2 rr al aa.
Proof.
  intros Hr Ha HA Haa Hnz Hd Ed E1 E2.
  destruct (discriminant_repr st r alpha A rr al aa Hr Ha HA Haa)
    as (d' & Ed' & Hd').
  rewrite Ed in Ed'. injection Ed' as <-.
  destruct (t1_repr st r alpha d rr al _ Hr Ha Hd' Hd Hnz) as (y1 & F1 & H1).
  destruct (t2_repr st r alpha d rr al _ Hr Ha Hd' Hd Hnz) as (y2 & F2 & H2).
  rewrite E1 in F1. injection F1 as <-.
  rewrite E2 in F2. injection F2 as <-.
  split; assumption.
Qed.

Lemma computed_roots_example :
  exists d x1 x2,
    discriminant np_default (Fin (25 / 100)) (Fin (1 / 100)) (Fin 15) = Ok d /\
    t1 np_default (Fin (25 / 100)) (Fin (1 / 100)) d = Ok x1 /\
    t2 np_default (Fin (25 / 100)) (Fin (1 / 100)) d = Ok x2 /\
    0 <= Rdisc (25 / 100) (1 / 100) 15.
Proof.
  pose proof ln_15_lt_4 as Hl4.
  assert (Hd : 0 <= Rdisc (25 / 100) (1 / 100) 15) by (unfold Rdisc; lra).
  destruct (solver_regular np_default default_simulator (Fin 50)
              (Fin (25 / 100)) (Fin (1 / 100)) (Fin 15)
              (25 / 100) (1 / 100) 15)
    as (d & x1 & x2 & Ed & E1 & E2 & _); try (split; reflexivity); try lra.
  exists d, x1, x2. repeat (split; [assumption|]). exact Hd.
Defined.

Lemma Rroots_vieta (r alpha A : R) :
  r * alpha <> 0 -> 0 <= Rdisc r alpha A ->
  Rroot1 r alpha A + Rroot2 r alpha A = 1 / alpha /\
  Rroot1 r alpha A * Rroot2 r alpha A = ln A / (r * alpha).
Proof.
  intros Hnz Hd. unfold Rroot1, Rroot2.
  pose proof (sqrt_sqrt _ Hd) as Hs. unfold Rdisc in Hs.
  set (s := sqrt _) in *. set (l := ln A) in *.
  assert (Hr : r <> 0) by (intros ->; apply Hnz; ring).
  assert (Ha : alpha <> 0) by (intros ->; apply Hnz; ring).
  split.
  - field. split; assumption.
  - field_simplify_eq; [|split; assumption]. nra.
Qed.

(** X5. In exact real arithmetic (no rounding, overflow or underflow) the
    two quotients the code computes are symmetric about the peak of the
    treated curve: for a non-degenerate quadratic with real roots,
    [t1 + t2 = 1 / alpha] and [t1 * t2 = ln(A) / (r * alpha)]. *)
Theorem computed_roots_sum_and_product (st : errstate)
    (r alpha A d x1 x2 : float) (rr al aa : R) :
  r =~ rr -> alpha =~ al -> A =~ aa ->
  0 < aa -> rr * al <> 0 ->
  0 <= rr * rr - 4 * (- rr * al) * (- ln aa) ->
  discriminant st r alpha A = Ok d ->
  t1 st r alpha d = Ok x1 -> t2 st r alpha d = Ok x2 ->
  fval x1 + fval x2 = 1 / al /\ fval x1 * fval x2 = ln aa / (rr * al).
Proof.
  intros Hr Ha HA Haa Hnz Hd Ed E1 E2.
  destruct (computed_roots st r alpha A d x1 x2 rr al aa
              Hr Ha HA Haa Hnz Hd Ed E1 E2) as [[_ ->] [_ ->]].
  apply Rroots_vieta; assumption.
Qed.

Lemma computed_roots_sum_and_product_witness :
  exists d x1 x2,
    discriminant np_default (Fin (25 / 100)) (Fin (1 / 100)) (Fin 15) = Ok d /\
    t1 np_default (Fin (25 / 100)) (Fin (1 / 100)) d = Ok x1 /\
    t2 np_default (Fin (25 / 100)) (Fin (1 / 100)) d = Ok x2 /\
    fval x1 + fval x2 = 1 / (1 / 100).
Proof.
  destruct computed_roots_example as (d & x1 & x2 & Ed & E1 & E2 & Hd).
  destruct (computed_roots_sum_and_product np_default (Fin (25 / 100))
              (Fin (1 / 100)) (Fin 15) d x1 x2 (25 / 100) (1 / 100) 15)
    as [Hsum _].
  - split; reflexivity.
  - split; reflexivity.
  - split; reflexivity.
  - lra.
  - lra.
  - exact Hd.
  - exact Ed.
  - exact E1.
  - exact E2.
  - exists d, x1, x2. repeat (split; [assumption|]). exact Hsum.
Defined.

Lemma ln_pos_iff (A : R) : 0 < A -> (0 < ln A <-> 1 < A).
Proof.
  intros HA. rewrite <- ln_1. split; intros H.
  - apply ln_lt_inv; lra.
  - apply ln_increasing; lra.
Qed.

(** X6. In exact real arithmetic (no rounding, overflow or underflow):
    with [r > 0], [alpha > 0], [A > 0] and real roots, the condition
    [t1 > 0 and t2 > 0] of the selection holds exactly when [A > 1], that is
    when [N0 < K / 2]: only then is [max(t1, t2)] evaluated; otherwise the
    first root is not positive and the second root is taken by the inner
    conditional. *)
Theorem both_roots_positive_iff (st : errstate)
    (r alpha A d x1 x2 : float) (rr al aa : R) :
  r =~ rr -> alpha =~ al -> A =~ aa ->
  0 < rr -> 0 < al -> 0 < aa ->
  0 <= rr * rr - 4 * (- rr * al) * (- ln aa) ->
  discriminant st r alpha A = Ok d ->
  t1 st r alpha d = Ok x1 -> t2 st r alpha d = Ok x2 ->
  (fgt x1 (Fin 0) && fgt x2 (Fin 0) = true <-> 1 < aa) /\
  t_half_analytic x1 x2 = x2.
Proof.
  intros Hr Ha HA Hrr Hal Haa Hd Ed E1 E2.
  assert (Hnz : rr * al <> 0) by nra.
  destruct (computed_roots st r alpha A d x1 x2 rr al aa
              Hr Ha HA Haa Hnz Hd Ed E1 E2) as [H1 H2].
  pose proof (Rroot2_pos rr al aa Hrr Hal Hd) as Hpos.
  destruct (Rroots_ordered rr al aa Hrr Hal Hd) as [Hle _].
  split.
  - unfold fgt.
    rewrite (flt_repr _ _ _ _ (repr_Fin 0) H1).
    rewrite (flt_repr _ _ _ _ (repr_Fin 0) H2).
    rewrite (Rltb_true _ _ Hpos), andb_true_r, Rltb_spec.
    rewrite (Rroot1_positive_iff rr al aa Hrr Hal Hd).
    apply ln_pos_iff, Haa.
  - apply (t_half_analytic_larger x1 x2 _ _ H1 H2 Hle Hpos).
Qed.

Lemma both_roots_positive_iff_witness :
  exists d x1 x2,
    discriminant np_default (Fin (25 / 100)) (Fin (1 / 100)) (Fin 15) = Ok d /\
    t1 np_default (Fin (25 / 100)) (Fin (1 / 100)) d = Ok x1 /\
    t2 np_default (Fin (25 / 100)) (Fin (1 / 100)) d = Ok x2 /\
    fgt x1 (Fin 0) && fgt x2 (Fin 0) = true /\
    t_half_analytic x1 x2 = x2.
Proof.
  destruct computed_roots_example as (d & x1 & x2 & Ed & E1 & E2 & Hd).
  destruct (both_roots_positive_iff np_default (Fin (25 / 100))
              (Fin (1 / 100)) (Fin 15) d x1 x2 (25 / 100) (1 / 100) 15)
    as [Hiff Hsel].
  - split; reflexivity.
  - split; reflexivity.
  - split; reflexivity.
  - lra.
  - lra.
  - lra.
  - exact Hd.
  - exact Ed.
  - exact E1.
  - exact E2.
  - exists d, x1, x2. repeat (split; [assumption|]).
    split; [apply Hiff; lra | exact Hsel].
Defined.

Lemma np_default_signal (p : float * fpflag) :
  np_signal np_default p = Ok (fst p).
Proof. unfold np_signal. destruct (snd p); reflexivity. Qed.

Lemma classify_negative (x : float) (u : R) :
  x =~ u -> u < 0 -> classify x = CNum u /\ Rneg u = true.
Proof.
  intros Hx Hu. split; [apply classify_nonzero; [exact Hx | lra]|].
  unfold Rneg. destruct (Rlt_dec u 0); [reflexivity | contradiction].
Qed.

(** X7. The finiteness of [Tf] matters.  With finite operations exact (no
    rounding, overflow or underflow of [r * r] or [r * alpha]): under the
    default error state, with finite [r > 0] and [alpha > 0], [N0 = K] (so
    [A] is zero) and an infinite horizon [Tf = +inf], the solver returns the
    time [+inf]: the logarithm is -inf, the discriminant +inf, the quotients
    are -inf and +inf, and [inf <= inf] passes the range check. *)
Theorem solver_infinite_horizon (self : CellularGrowthSimulator)
    (N0 r alpha A : float) (rr al : R) :
  Tf self = PInf -> r =~ rr -> alpha =~ al -> A =~ 0 ->
  0 < rr -> 0 < al ->
  _calcular_tiempo_medio np_default self N0 r alpha A = Ok (Some PInf).
Proof.
  intros HT Hr Ha HA Hrr Hal.
  pose proof (py_mul_repr _ _ _ _ (repr_Fin 4)
                (a_param_repr r alpha rr al Hr Ha)) as H4a.
  pose proof (den_repr r alpha rr al Hr Ha) as Hden.
  destruct (classify_negative _ _ H4a) as [C4 N4]; [nra|].
  destruct (classify_negative _ _ Hden) as [Cd Nd]; [nra|].
  pose proof (repr_finite _ _ (py_pow2_repr r rr Hr)) as Fb2.
  pose proof (repr_finite _ _ (fneg_repr r rr Hr)) as Fnr.
  assert (Ec : c_param np_default A = Ok PInf).
  { unfold c_param, np_log. rewrite np_default_signal. unfold ieee_log.
    destruct (classify_zero A HA) as (s & ->). reflexivity. }
  assert (Ed : discriminant np_default r alpha A = Ok PInf).
  { unfold discriminant, b_param. rewrite Ec. cbn [bind].
    unfold np_mul. rewrite np_default_signal. unfold ieee_mul at 1.
    rewrite C4. cbn [classify]. rewrite N4. cbn [xorb inf quiet fst bind].
    unfold np_sub, ieee_sub. change (fneg NInf) with PInf.
    rewrite (ieee_add_PInf_r _ Fb2). reflexivity. }
  assert (E1 : t1 np_default r alpha PInf = Ok NInf).
  { unfold t1, b_param, py_neg, np_sqrt, np_add, np_div.
    change (ieee_sqrt PInf) with (PInf, FlagNone).
    rewrite np_default_signal. cbn [fst bind].
    rewrite (ieee_add_PInf_r _ Fnr), np_default_signal. cbn [fst bind].
    rewrite np_default_signal. unfold ieee_div. rewrite Cd. cbn [classify].
    rewrite Nd. reflexivity. }
  assert (E2 : t2 np_default r alpha PInf = Ok PInf).
  { unfold t2, b_param, py_neg, np_sqrt, np_sub, np_div, ieee_sub.
    change (ieee_sqrt PInf) with (PInf, FlagNone).
    rewrite np_default_signal. cbn [fst bind].
    change (fneg PInf) with NInf.
    rewrite (ieee_add_NInf_r _ Fnr), np_default_signal. cbn [fst bind].
    rewrite np_default_signal. unfold ieee_div. rewrite Cd. cbn [classify].
    rewrite Nd. reflexivity. }
  unfold _calcular_tiempo_medio, tiempo_medio_body.
  rewrite Ed. cbn [bind]. change (fge PInf (Fin 0)) with true. cbv iota.
  rewrite E1, E2, HT. reflexivity.
Qed.

Lemma solver_infinite_horizon_witness :
  _calcular_tiempo_medio np_default
    {| K := Fin 800; N0_initial := Fin 50; r0 := Fin (25 / 100);
       alpha0 := Fin (1 / 100); Tf := PInf; Td := Fin (35 / 10) |}
    (Fin 800) (Fin (25 / 100)) (Fin (1 / 100)) (Fin 0) = Ok (Some PInf).
Proof.
  apply (solver_infinite_horizon _ (Fin 800) (Fin (25 / 100))
           (Fin (1 / 100)) (Fin 0) (25 / 100) (1 / 100)).
  - reflexivity.
  - split; reflexivity.
  - split; reflexivity.
  - split; reflexivity.
  - lra.
  - lra.
Defined.

(** ** Shape of the treated curve *)

(** The treated curve decreases with the exponent of its exponential. *)
Lemma Rtreated_exponent_le (N0 Kc e e' : R) :
  0 < N0 -> N0 < Kc -> e' <= e ->
  Kc / (1 + (Kc - N0) / N0 * exp e) <= Kc / (1 + (Kc - N0) / N0 * exp e').
Proof.
  intros HN HK He.
  assert (HA : 0 < (Kc - N0) / N0) by (apply Rdiv_lt_0_compat; lra).
  pose proof (exp_pos e) as P. pose proof (exp_pos e') as P'.
  assert (Hexp : exp e' <= exp e).
  { destruct He as [Hlt | Heq].
    - left. apply exp_increasing, Hlt.
    - right. rewrite Heq. reflexivity. }
  set (A := (Kc - N0) / N0) in *.
  assert (0 < A * exp e') by (apply Rmult_lt_0_compat; assumption).
  assert (A * exp e' <= A * exp e) by (apply Rmult_le_compat_l; lra).
  unfold Rdiv. apply Rmult_le_compat_l; [lra|].
  apply Rinv_le_contravar; lra.
Qed.

Lemma Rtreated_exponent_lt (N0 Kc e e' : R) :
  0 < N0 -> N0 < Kc -> e' < e ->
  Kc / (1 + (Kc - N0) / N0 * exp e) < Kc / (1 + (Kc - N0) / N0 * exp e').
Proof.
  intros HN HK He.
  assert (HA : 0 < (Kc - N0) / N0) by (apply Rdiv_lt_0_compat; lra).
  pose proof (exp_pos e) as P. pose proof (exp_pos e') as P'.
  pose proof (exp_increasing _ _ He) as Hexp.
  set (A := (Kc - N0) / N0) in *.
  assert (0 < A * exp e') by (apply Rmult_lt_0_compat; assumption).
  assert (A * exp e' < A * exp e) by (apply Rmult_lt_compat_l; lra).
  unfold Rdiv. apply Rmult_lt_compat_l; [lra|].
  apply Rinv_lt_contravar; [|lra].
  apply Rmult_lt_0_compat; lra.
Qed.

(** Evaluation of the treated curve on valid finite parameters. *)
Lemma treated_eval (st : errstate) (t N0 Kc r alpha : float)
    (tt n0 k rr al : R) :
  t =~ tt -> N0 =~ n0 -> Kc =~ k -> r =~ rr -> alpha =~ al ->
  0 < n0 -> n0 < k ->
  exists y, _crecimiento_con_tratamiento st t N0 Kc r alpha = Ok y /\
            y =~ Rtreated tt n0 k rr al.
Proof.
  intros Ht HN HK Hr Ha Hn0 Hk.
  destruct (Rtreated_bounds tt n0 k rr al Hn0 Hk) as [Hd _].
  apply treated_repr; try assumption; lra.
Qed.

(** X8. For [0 < N0 < K], [r > 0] and [alpha >= 0] the treated curve is
    strictly increasing up to its peak: if [t < t'] and [t'] is at or before
    [1 / (2 alpha)] (written [2 * alpha * t' <= 1], which always holds when
    [alpha = 0]), the value at [t] is smaller than the value at [t']. *)
Theorem treated_growth_increasing_before_peak (st : errstate)
    (t t' N0 Kc r alpha : float) (tt tt' n0 k rr al : R) :
  t =~ tt -> t' =~ tt' -> N0 =~ n0 -> Kc =~ k -> r =~ rr -> alpha =~ al ->
  0 < n0 -> n0 < k -> 0 < rr -> 0 <= al ->
  tt < tt' -> 2 * al * tt' <= 1 ->
  exists y y',
    _crecimiento_con_tratamiento st t N0 Kc r alpha = Ok y /\
    _crecimiento_con_tratamiento st t' N0 Kc r alpha = Ok y' /\
    fval y < fval y'.
Proof.
  intros Ht Ht' HN HK Hr Ha Hn0 Hk Hrr Hal Hlt Hpk.
  destruct (treated_eval st t N0 Kc r alpha tt n0 k rr al
              Ht HN HK Hr Ha Hn0 Hk) as (y & Ey & [_ Hy]).
  destruct (treated_eval st t' N0 Kc r alpha tt' n0 k rr al
              Ht' HN HK Hr Ha Hn0 Hk) as (y' & Ey' & [_ Hy']).
  exists y, y'. split; [exact Ey | split; [exact Ey'|]].
  rewrite Hy, Hy'. apply Rtreated_exponent_lt; try assumption.
  assert (al * (tt + tt') < 1).
  { destruct Hal as [Hpos | Hz]; [nra | rewrite <- Hz; lra]. }
  assert (P : 0 < rr * ((tt' - tt) * (1 - al * (tt + tt')))).
  { apply Rmult_lt_0_compat; [lra|]. apply Rmult_lt_0_compat; lra. }
  replace (rr * ((tt' - tt) * (1 - al * (tt + tt'))))
    with (- rr * tt * (1 - al * tt) - - rr * tt' * (1 - al * tt')) in P
    by ring.
  lra.
Qed.

Lemma treated_growth_increasing_before_peak_witness :
  exists y y',
    _crecimiento_con_tratamiento np_default (Fin 10) (Fin 50) (Fin 800)
      (Fin (25 / 100)) (Fin (1 / 100)) = Ok y /\
    _crecimiento_con_tratamiento np_default (Fin 40) (Fin 50) (Fin 800)
      (Fin (25 / 100)) (Fin (1 / 100)) = Ok y' /\
    fval y < fval y'.
Proof.
  apply (treated_growth_increasing_before_peak np_default (Fin 10) (Fin 40)
           (Fin 50) (Fin 800) (Fin (25 / 100)) (Fin (1 / 100))
           10 40 50 800 (25 / 100) (1 / 100)).
  - split; reflexivity.
  - split; reflexivity.
  - split; reflexivity.
  - split; reflexivity.
  - split; reflexivity.
  - split; reflexivity.
  - lra.
  - lra.
  - lra.
  - lra.
  - lra.
  - lra.
Defined.

(** X9. For [0 < N0 < K], [r > 0] and [alpha > 0] the treated curve is
    strictly decreasing after its peak: if [1 / (2 alpha) <= t < t'], the
    value at [t'] is smaller than the value at [t]. *)
Theorem treated_growth_decreasing_after_peak (st : errstate)
    (t t' N0 Kc r alpha : float) (tt tt' n0 k rr al : R) :
  t =~ tt -> t' =~ tt' -> N0 =~ n0 -> Kc =~ k -> r =~ rr -> alpha =~ al ->
  0 < n0 -> n0 < k -> 0 < rr -> 0 < al ->
  1 <= 2 * al * tt -> tt < tt' ->
  exists y y',
    _crecimiento_con_tratamiento st t N0 Kc r alpha = Ok y /\
    _crecimiento_con_tratamiento st t' N0 Kc r alpha = Ok y' /\
    fval y' < fval y.
Proof.
  intros Ht Ht' HN HK Hr Ha Hn0 Hk Hrr Hal Hpk Hlt.
  destruct (treated_eval st t N0 Kc r alpha tt n0 k rr al
              Ht HN HK Hr Ha Hn0 Hk) as (y & Ey & [_ Hy]).
  destruct (treated_eval st t' N0 Kc r alpha tt' n0 k rr al
              Ht' HN HK Hr Ha Hn0 Hk) as (y' & Ey' & [_ Hy']).
  exists y, y'. split; [exact Ey | split; [exact Ey'|]].
  rewrite Hy, Hy'. apply Rtreated_exponent_lt; try assumption.
  assert (1 < al * (tt + tt')) by nra.
  assert (P : 0 < rr * ((tt' - tt) * (al * (tt + tt') - 1))).
  { apply Rmult_lt_0_compat; [lra|]. apply Rmult_lt_0_compat; lra. }
  replace (rr * ((tt' - tt) * (al * (tt + tt') - 1)))
    with (- rr * tt' * (1 - al * tt') - - rr * tt * (1 - al * tt)) in P
    by ring.
  lra.
Qed.

Lemma treated_growth_decreasing_after_peak_witness :
  exists y y',
    _crecimiento_con_tratamiento np_default (Fin 50) (Fin 50) (Fin 800)
      (Fin (25 / 100)) (Fin (1 / 100)) = Ok y /\
    _crecimiento_con_tratamiento np_default (Fin 120) (Fin 50) (Fin 800)
      (Fin (25 / 100)) (Fin (1 / 100)) = Ok y' /\
    fval y' < fval y.
Proof.
  apply (treated_growth_decreasing_after_peak np_default (Fin 50) (Fin 120)
           (Fin 50) (Fin 800) (Fin (25 / 100)) (Fin (1 / 100))
           50 120 50 800 (25 / 100) (1 / 100)).
  - split; reflexivity.
  - split; reflexivity.
  - split; reflexivity.
  - split; reflexivity.
  - split; reflexivity.
  - split; reflexivity.
  - lra.
  - lra.
  - lra.
  - lra.
  - lra.
  - lra.
Defined.

(** X10. For [0 < N0 < K] and [alpha > 0] the treated curve is symmetric
    about its peak: the values at [t] and at [1 / alpha - t] are equal; in
    particular the population is back at [N0] at [t = 1 / alpha]. *)
Theorem treated_growth_symmetric (st : errstate)
    (t t' N0 Kc r alpha : float) (tt n0 k rr al : R) :
  t =~ tt -> t' =~ 1 / al - tt -> N0 =~ n0 -> Kc =~ k -> r =~ rr ->
  alpha =~ al -> 0 < n0 -> n0 < k -> 0 < al ->
  exists y y',
    _crecimiento_con_tratamiento st t N0 Kc r alpha = Ok y /\
    _crecimiento_con_tratamiento st t' N0 Kc r alpha = Ok y' /\
    fval y = fval y'.
Proof.
  intros Ht Ht' HN HK Hr Ha Hn0 Hk Hal.
  destruct (treated_eval st t N0 Kc r alpha tt n0 k rr al
              Ht HN HK Hr Ha Hn0 Hk) as (y & Ey & [_ Hy]).
  destruct (treated_eval st t' N0 Kc r alpha _ n0 k rr al
              Ht' HN HK Hr Ha Hn0 Hk) as (y' & Ey' & [_ Hy']).
  exists y, y'. split; [exact Ey | split; [exact Ey'|]].
  rewrite Hy, Hy'. unfold Rtreated.
  replace (- rr * (1 / al - tt) * (1 - al * (1 / al - tt)))
    with (- rr * tt * (1 - al * tt)) by (field; lra).
  reflexivity.
Qed.

Lemma treated_growth_symmetric_witness :
  exists y y',
    _crecimiento_con_tratamiento np_default (Fin 0) (Fin 50) (Fin 800)
      (Fin (25 / 100)) (Fin (1 / 100)) = Ok y /\
    _crecimiento_con_tratamiento np_default (Fin 100) (Fin 50) (Fin 800)
      (Fin (25 / 100)) (Fin (1 / 100)) = Ok y' /\
    fval y = fval y'.
Proof.
  apply (treated_growth_symmetric np_default (Fin 0) (Fin 100)
           (Fin 50) (Fin 800) (Fin (25 / 100)) (Fin (1 / 100))
           0 50 800 (25 / 100) (1 / 100)).
  - split; reflexivity.
  - split; [reflexivity | simpl; lra].
  - split; reflexivity.
  - split; reflexivity.
  - split; reflexivity.
  - split; reflexivity.
  - lra.
  - lra.
  - lra.
Defined.

(** X11. In exact real arithmetic, for [0 < N0 < K], [r > 0] and
    [alpha > 0] the treated curve never exceeds its value at the peak: at
    every finite [t] it is at most
    [K / (1 + A * exp(-r / (4 alpha)))] with [A = (K - N0) / N0], which is
    below [K]: under treatment the carrying capacity is not approached. *)
Theorem treated_growth_peak_bound (st : errstate)
    (t N0 Kc r alpha : float) (tt n0 k rr al : R) :
  t =~ tt -> N0 =~ n0 -> Kc =~ k -> r =~ rr -> alpha =~ al ->
  0 < n0 -> n0 < k -> 0 < rr -> 0 < al ->
  exists y,
    _crecimiento_con_tratamiento st t N0 Kc r alpha = Ok y /\
    fval y <= k / (1 + (k - n0) / n0 * exp (- rr / (4 * al))) /\
    k / (1 + (k - n0) / n0 * exp (- rr / (4 * al))) < k.
Proof.
  intros Ht HN HK Hr Ha Hn0 Hk Hrr Hal.
  destruct (treated_eval st t N0 Kc r alpha tt n0 k rr al
              Ht HN HK Hr Ha Hn0 Hk) as (y & Ey & [_ Hy]).
  exists y. split; [exact Ey|]. split.
  - rewrite Hy. unfold Rtreated. apply Rtreated_exponent_le; try assumption.
    assert (E : - rr * tt * (1 - al * tt) - - rr / (4 * al)
                = rr * al * ((tt - 1 / (2 * al)) * (tt - 1 / (2 * al))))
      by (field; lra).
    assert (0 <= rr * al * ((tt - 1 / (2 * al)) * (tt - 1 / (2 * al)))).
    { apply Rmult_le_pos; [nra|]. apply Rle_0_sqr. }
    lra.
  - assert (HA : 0 < (k - n0) / n0) by (apply Rdiv_lt_0_compat; lra).
    pose proof (exp_pos (- rr / (4 * al))) as P.
    pose proof (Rmult_lt_0_compat _ _ HA P) as Q.
    set (d := 1 + _) in *.
    assert (Hd : 1 < d) by (unfold d; lra).
    apply Rmult_lt_reg_r with d; [lra|].
    unfold Rdiv. rewrite Rmult_assoc, Rinv_l by lra. nra.
Qed.

Lemma treated_growth_peak_bound_witness :
  exists y,
    _crecimiento_con_tratamiento np_default (Fin 30) (Fin 50) (Fin 800)
      (Fin (25 / 100)) (Fin (1 / 100)) = Ok y /\
    fval y <= 800 / (1 + (800 - 50) / 50
                         * exp (- (25 / 100) / (4 * (1 / 100)))) /\
    800 / (1 + (800 - 50) / 50 * exp (- (25 / 100) / (4 * (1 / 100)))) < 800.
Proof.
  apply (treated_growth_peak_bound np_default (Fin 30) (Fin 50) (Fin 800)
           (Fin (25 / 100)) (Fin (1 / 100)) 30 50 800 (25 / 100) (1 / 100)).
  - split; reflexivity.
  - split; reflexivity.
  - split; reflexivity.
  - split; reflexivity.
  - split; reflexivity.
  - lra.
  - lra.
  - lra.
  - lra.
Defined.

(** ** Shape of the untreated curve *)

Lemma Runtreated_exp (t N0 Td_ : R) :
  Runtreated t N0 Td_ = N0 * exp (t * (ln 2 / Td_ - 2 / 100)).
Proof.
  unfold Runtreated, Rpower. rewrite Rmult_assoc, <- exp_plus.
  do 2 f_equal. unfold Rdiv. ring.
Qed.

(** X12. For [N0 > 0] and a doubling time with [0.02 * Td < ln 2] (any
    [Td] up to 25 days, the default 3.5 among them) the untreated curve is
    strictly increasing in [t]: the fixed decay never outweighs the
    doubling. *)
Theorem untreated_growth_increasing (st : errstate)
    (t t' N0 Td_ : float) (tt tt' n0 td : R) :
  t =~ tt -> t' =~ tt' -> N0 =~ n0 -> Td_ =~ td ->
  0 < n0 -> 0 < td -> 2 / 100 * td < ln 2 -> tt < tt' ->
  exists y y',
    _crecimiento_sin_tratamiento st t N0 Td_ = Ok y /\
    _crecimiento_sin_tratamiento st t' N0 Td_ = Ok y' /\
    fval y < fval y'.
Proof.
  intros Ht Ht' HN HT Hn0 Htd Hrate Hlt.
  destruct (untreated_repr st t N0 Td_ tt n0 td Ht HN HT)
    as (y & Ey & [_ Hy]); [lra|].
  destruct (untreated_repr st t' N0 Td_ tt' n0 td Ht' HN HT)
    as (y' & Ey' & [_ Hy']); [lra|].
  exists y, y'. split; [exact Ey | split; [exact Ey'|]].
  rewrite Hy, Hy', !Runtreated_exp.
  apply Rmult_lt_compat_l; [exact Hn0|]. apply exp_increasing.
  assert (0 < ln 2 / td - 2 / 100).
  { apply Rmult_lt_reg_r with td; [exact Htd|].
    replace ((ln 2 / td - 2 / 100) * td) with (ln 2 - 2 / 100 * td)
      by (field; lra).
    lra. }
  apply Rmult_lt_compat_r; assumption.
Qed.

Lemma untreated_growth_increasing_witness :
  exists y y',
    _crecimiento_sin_tratamiento np_default (Fin 0) (Fin 50) (Fin (35 / 10))
      = Ok y /\
    _crecimiento_sin_tratamiento np_default (Fin 40) (Fin 50) (Fin (35 / 10))
      = Ok y' /\
    fval y < fval y'.
Proof.
  apply (untreated_growth_increasing np_default (Fin 0) (Fin 40) (Fin 50)
           (Fin (35 / 10)) 0 40 50 (35 / 10)).
  - split; reflexivity.
  - split; reflexivity.
  - split; reflexivity.
  - split; reflexivity.
  - lra.
  - lra.
  - pose proof ln_lt_2. lra.
  - lra.
Defined.

(** X13. One doubling time later the untreated population is doubled and
    attenuated by the decay over that time: the value at [t + Td] is
    [2 * exp(-0.02 * Td)] times the value at [t]. *)
Theorem untreated_growth_doubling (st : errstate)
    (t t' N0 Td_ : float) (tt n0 td : R) :
  t =~ tt -> t' =~ tt + td -> N0 =~ n0 -> Td_ =~ td -> td <> 0 ->
  exists y y',
    _crecimiento_sin_tratamiento st t N0 Td_ = Ok y /\
    _crecimiento_sin_tratamiento st t' N0 Td_ = Ok y' /\
    fval y' = 2 * exp (- (2 / 100) * td) * fval y.
Proof.
  intros Ht Ht' HN HT Htd.
  destruct (untreated_repr st t N0 Td_ tt n0 td Ht HN HT Htd)
    as (y & Ey & [_ Hy]).
  destruct (untreated_repr st t' N0 Td_ _ n0 td Ht' HN HT Htd)
    as (y' & Ey' & [_ Hy']).
  exists y, y'. split; [exact Ey | split; [exact Ey'|]].
  rewrite Hy, Hy'. unfold Runtreated.
  replace ((tt + td) / td) with (tt / td + 1) by (field; exact Htd).
  rewrite Rpower_plus, Rpower_1 by lra.
  replace (- (2 / 100) * (tt + td))
    with (- (2 / 100) * tt + - (2 / 100) * td) by ring.
  rewrite exp_plus. ring.
Qed.

Lemma untreated_growth_doubling_witness :
  exists y y',
    _crecimiento_sin_tratamiento np_default (Fin 7) (Fin 50) (Fin (35 / 10))
      = Ok y /\
    _crecimiento_sin_tratamiento np_default (Fin (105 / 10)) (Fin 50)
      (Fin (35 / 10)) = Ok y' /\
    fval y' = 2 * exp (- (2 / 100) * (35 / 10)) * fval y.
Proof.
  apply (untreated_growth_doubling np_default (Fin 7) (Fin (105 / 10))
           (Fin 50) (Fin (35 / 10)) 7 50 (35 / 10)).
  - split; reflexivity.
  - split; [reflexivity | simpl; lra].
  - split; reflexivity.
  - split; reflexivity.
  - lra.
Defined.

(** ** Unguarded divisions *)

Lemma is_zero_true (x : float) : x =~ 0 -> is_zero x = true.
Proof.
  intros Hx. unfold is_zero. destruct (classify_zero x Hx) as (s & ->).
  reflexivity.
Qed.

(** X14. The solver's handler does not cover the division
    [(K - N0) / N0]: with [N0] zero (of either sign) it raises
    [ZeroDivisionError] in the treated curve and in the computation of
    [A_auto], which comes before the solver's [try] is entered, whatever the
    other arguments. *)
Theorem zero_N0_raises (st : errstate) (self : CellularGrowthSimulator)
    (t N0 Kc r alpha : float) :
  N0 =~ 0 ->
  _crecimiento_con_tratamiento st t N0 Kc r alpha = Raise ZeroDivisionError /\
  A_auto self N0 = Raise ZeroDivisionError /\
  t_half_of_update_plot st self N0 r alpha = Raise ZeroDivisionError.
Proof.
  intros HN. pose proof (is_zero_true N0 HN) as Hz.
  unfold t_half_of_update_plot, A_auto, _crecimiento_con_tratamiento, py_div.
  rewrite Hz. repeat split; reflexivity.
Qed.

Lemma zero_N0_raises_witness :
  _crecimiento_con_tratamiento np_default (Fin 1) (Fin 0) (Fin 800)
    (Fin (25 / 100)) (Fin (1 / 100)) = Raise ZeroDivisionError /\
  A_auto default_simulator (Fin 0) = Raise ZeroDivisionError /\
  t_half_of_update_plot np_default default_simulator (Fin 0)
    (Fin (25 / 100)) (Fin (1 / 100)) = Raise ZeroDivisionError.
Proof.
  apply (zero_N0_raises np_default default_simulator (Fin 1) (Fin 0)
           (Fin 800) (Fin (25 / 100)) (Fin (1 / 100))).
  split; reflexivity.
Defined.

Lemma classify_positive (x : float) (u : R) :
  x =~ u -> 0 < u -> classify x = CNum u /\ Rneg u = false.
Proof.
  intros Hx Hu. split; [apply classify_nonzero; [exact Hx | lra]|].
  unfold Rneg. destruct (Rlt_dec u 0); [exfalso; lra | reflexivity].
Qed.

(** X15. A zero doubling time is not rejected by the untreated curve.  With
    [Td = 0.0], [N0 > 0] and [t > 0], numpy's division gives +inf; under the
    default error state the curve raises nothing and its value is not
    finite (+inf, and NaN where [exp(-0.02 * t)] has underflowed to zero,
    which rounding alone decides); when the error state raises on division
    by zero, [FloatingPointError] leaves the curve, which has no handler. *)
Theorem untreated_growth_zero_Td (st : errstate) (t N0 : float)
    (tt n0 : R) :
  t =~ tt -> N0 =~ n0 -> 0 < tt -> 0 < n0 ->
  (exists y, _crecimiento_sin_tratamiento np_default t N0 (Fin 0) = Ok y /\
             finite y = false) /\
  (divide_raises st = true ->
   _crecimiento_sin_tratamiento st t N0 (Fin 0) = Raise FloatingPointError).
Proof.
  intros Ht HN Htt Hn0.
  destruct (classify_positive t tt Ht Htt) as [Ct Nt].
  destruct (classify_positive N0 n0 HN Hn0) as [CN NN].
  assert (Ediv : ieee_div t (Fin 0) = (PInf, FlagDivide)).
  { unfold ieee_div. rewrite Ct.
    replace (classify (Fin 0)) with (CZero false).
    - rewrite Nt. reflexivity.
    - unfold classify. destruct (Req_dec_T 0 0); [reflexivity | lra]. }
  split.
  - assert (E1 : np_div np_default t (Fin 0) = Ok PInf).
    { unfold np_div. rewrite Ediv. reflexivity. }
    assert (E2 : np_mul np_default N0 PInf = Ok PInf).
    { unfold np_mul, ieee_mul. rewrite CN. cbn [classify]. rewrite NN.
      reflexivity. }
    destruct (np_mul_repr np_default _ _ _ _
                (fneg_repr _ _ (repr_Fin (2 / 100))) Ht) as (m & E3 & Hm).
    destruct (np_exp_repr np_default m _ Hm) as (e & E4 & He).
    destruct (classify_positive e _ He (exp_pos _)) as [Ce Ne].
    assert (E5 : np_mul np_default PInf e = Ok PInf).
    { unfold np_mul, ieee_mul. rewrite Ce. cbn [classify]. rewrite Ne.
      reflexivity. }
    exists PInf. split; [|reflexivity].
    unfold _crecimiento_sin_tratamiento, py_neg.
    rewrite E1. cbn [bind].
    change (np_pow2 np_default PInf) with (@Ok float PInf). cbn [bind].
    rewrite E2. cbn [bind]. rewrite E3. cbn [bind]. rewrite E4. cbn [bind].
    exact E5.
  - intros Hraise.
    unfold _crecimiento_sin_tratamiento, np_div, np_signal.
    rewrite Ediv. cbn [snd]. rewrite Hraise. reflexivity.
Qed.

Lemma untreated_growth_zero_Td_witness :
  (exists y,
     _crecimiento_sin_tratamiento np_default (Fin 10) (Fin 50) (Fin 0)
       = Ok y /\ finite y = false) /\
  _crecimiento_sin_tratamiento
    {| divide_raises := true; invalid_raises := false |}
    (Fin 10) (Fin 50) (Fin 0) = Raise FloatingPointError.
Proof.
  destruct (untreated_growth_zero_Td
              {| divide_raises := true; invalid_raises := false |}
              (Fin 10) (Fin 50) 10 50) as [H1 H2].
  - split; reflexivity.
  - split; reflexivity.
  - lra.
  - lra.
  - split; [exact H1 | apply H2; reflexivity].
Defined.

(** ** The grid and the series of [_update_plot] *)

Lemma mapM_ok {A B : Type} (f : A -> outcome B) (P : A -> B -> Prop)
    (l : list A) :
  (forall a, In a l -> exists b, f a = Ok b /\ P a b) ->
  exists l', mapM f l = Ok l' /\ Forall2 P l l'.
Proof.
  induction l as [|a l IH]; intros H.
  - exists []. split; [reflexivity | constructor].
  - destruct (H a (or_introl eq_refl)) as (b & Eb & Pb).
    destruct IH as (l' & El & Fl); [intros x Hx; apply H; right; exact Hx|].
    exists (b :: l'). cbn [mapM]. rewrite Eb. cbn [bind]. rewrite El.
    split; [reflexivity | constructor; assumption].
Qed.


Lemma Forall_removelast {A : Type} (P : A -> Prop) (l : list A) :
  Forall P l -> Forall P (removelast l).
Proof.
  induction 1 as [|a l Ha Hl IH]; [constructor|].
  cbn [removelast]. destruct l; [constructor|].
  constructor; assumption.
Qed.

Lemma Forall2_right {A B : Type} (P : A -> B -> Prop) (Q : B -> Prop)
    (l : list A) (l' : list B) :
  Forall2 P l l' -> (forall a b, In a l -> P a b -> Q b) -> Forall Q l'.
Proof.
  induction 1 as [|a b l l' Hab Hl IH]; intros H; [constructor|].
  constructor.
  - apply (H a b); [left; reflexivity | exact Hab].
  - apply IH. intros x y Hx. apply H. right. exact Hx.
Qed.

Lemma set_last_cons (a b : float) (l : list float) (x : float) :
  set_last (a :: b :: l) x = a :: set_last (b :: l) x.
Proof. reflexivity. Qed.

Lemma set_last_length (l : list float) (x : float) :
  length (set_last l x) = length l.
Proof.
  induction l as [|a l IH]; [reflexivity|].
  destruct l as [|b l]; [reflexivity|].
  rewrite set_last_cons. cbn [length] in *. rewrite IH. reflexivity.
Qed.

Lemma set_last_last (l : list float) (x d : float) :
  l <> [] -> last (set_last l x) d = x.
Proof.
  intros Hl. destruct l as [|a l]; [contradiction|].
  unfold set_last. apply last_last.
Qed.

Lemma set_last_Forall (P : float -> Prop) (l : list float) (x : float) :
  Forall P l -> P x -> Forall P (set_last l x).
Proof.
  intros Hl Hx. destruct l as [|a l]; [constructor|].
  unfold set_last. apply Forall_app. split.
  - apply Forall_removelast, Hl.
  - constructor; [exact Hx | constructor].
Qed.

Lemma set_last_hd (a b : float) (l : list float) (x : float) :
  hd_error (set_last (a :: b :: l) x) = Some a.
Proof. rewrite set_last_cons. reflexivity. Qed.

(** The grid of [np.linspace(0, stop, num)] for a finite [stop] and at least
    two samples: no exception, [num] finite samples [i * stop / (num - 1)],
    the first one 0 and the last one [stop] itself. *)
Lemma np_linspace_grid (st : errstate) (stop : float) (tf : R) (num : nat) :
  stop =~ tf -> (2 <= num)%nat ->
  exists l,
    np_linspace st (Fin 0) stop num = Ok l /\
    length l = num /\
    last l NaN = stop /\
    (exists t0, hd_error l = Some t0 /\ t0 =~ 0) /\
    Forall (fun x => exists i, (i <= num - 1)%nat /\
                               x =~ INR i * (tf / INR (num - 1))) l.
Proof.
  intros Hs Hnum. unfold np_linspace.
  destruct (np_sub_repr st _ _ _ _ Hs (repr_Fin 0)) as (delta & -> & Hdl).
  cbn [bind].
  assert (Hlt : Nat.ltb 0 (num - 1) = true)
    by (apply Nat.ltb_lt; apply PeanoNat.Nat.lt_add_lt_sub_r; exact Hnum).
  rewrite Hlt.
  assert (Hdiv : INR (num - 1) <> 0).
  { apply not_0_INR. apply Nat.ltb_lt in Hlt.
    intros E. rewrite E in Hlt. inversion Hlt. }
  destruct (np_div_repr st _ _ _ _ Hdl (repr_Fin (INR (num - 1))) Hdiv)
    as (stp & -> & Hstp).
  cbn [bind].
  destruct (mapM_ok
              (fun i => m <- np_mul st (Fin (INR i)) stp ;;
                        np_add st m (Fin 0))
              (fun i y => y =~ INR i * (tf / INR (num - 1)))
              (seq 0 num)) as (y & -> & Fy).
  { intros i _.
    destruct (np_mul_repr st _ _ _ _ (repr_Fin (INR i)) Hstp)
      as (m & -> & Hm).
    cbn [bind].
    destruct (np_add_repr st _ _ _ _ Hm (repr_Fin 0)) as (z & -> & Hz).
    exists z. split; [reflexivity|].
    apply (repr_ext z _ _ Hz). unfold Rdiv. ring. }
  cbn [bind].
  pose proof (Forall2_length Fy) as Hlen. rewrite length_seq in Hlen.
  assert (Hall : Forall (fun x => exists i, (i <= num - 1)%nat /\
                           x =~ INR i * (tf / INR (num - 1))) y).
  { apply (Forall2_right _ _ _ _ Fy). intros i b Hi Hb.
    exists i. split; [|exact Hb].
    apply in_seq in Hi. destruct Hi as [_ Hi]. cbn in Hi.
    apply PeanoNat.Nat.lt_succ_r.
    replace (S (num - 1)) with num; [exact Hi|].
    destruct num; [inversion Hnum | cbn; rewrite PeanoNat.Nat.sub_0_r;
                                    reflexivity]. }
  exists (set_last y stop). split; [reflexivity|].
  split; [rewrite set_last_length; symmetry; exact Hlen|].
  destruct num as [|[|n]]; [inversion Hnum | inversion Hnum as [|? H1];
                                               inversion H1 |].
  cbn [seq] in Fy. inversion Fy as [|i0 y0 li ly H0 Fy' Ei Ey]. subst.
  inversion Fy' as [|i1 y1 li' ly' H1 Fy'' Ei' Ey']. subst.
  split; [apply set_last_last; discriminate|].
  split.
  - exists y0. split; [apply set_last_hd|].
    apply (repr_ext y0 _ _ H0). cbn [INR]. ring.
  - apply set_last_Forall; [exact Hall|].
    exists (S (S n) - 1)%nat. split; [apply le_n|].
    apply (repr_ext stop _ _ Hs). field. exact Hdiv.
Qed.

Lemma grid_point_bounds (i n : nat) (tf : R) :
  (i <= n)%nat -> (0 < n)%nat -> 0 <= tf ->
  0 <= INR i * (tf / INR n) <= tf.
Proof.
  intros Hi Hn Htf.
  assert (Hpos : 0 < INR n) by (apply lt_0_INR, Hn).
  pose proof (pos_INR i) as Hi0. pose proof (le_INR _ _ Hi) as Hin.
  assert (E : INR i * (tf / INR n) = tf * (INR i / INR n))
    by (field; lra).
  rewrite E.
  assert (0 <= INR i / INR n <= 1).
  { split.
    - apply Rmult_le_pos; [exact Hi0 | left; apply Rinv_0_lt_compat, Hpos].
    - apply Rmult_le_reg_r with (INR n); [exact Hpos|].
      unfold Rdiv. rewrite Rmult_assoc, Rinv_l by lra. lra. }
  nra.
Qed.

Lemma solver_total (st : errstate) (self : CellularGrowthSimulator)
    (N0 r alpha A : float) :
  exists o, _calcular_tiempo_medio st self N0 r alpha A = Ok o.
Proof.
  unfold _calcular_tiempo_medio, try_except.
  destruct (tiempo_medio_body st self N0 r alpha A); eexists; reflexivity.
Qed.

(** [_update_plot] on finite parameters with [0 < N0 < K] and a non-zero
    doubling time: every step succeeds, and the figure holds the grid, the
    two closed forms sampled on it and the solver's answer. *)
Lemma update_plot_eval (st : errstate) (self : CellularGrowthSimulator)
    (N0 r alpha : float) (k tf td n0 rr al : R) :
  K self =~ k -> Tf self =~ tf -> Td self =~ td ->
  N0 =~ n0 -> r =~ rr -> alpha =~ al ->
  0 < n0 -> n0 < k -> td <> 0 ->
  exists t sin con half A o,
    np_linspace st (Fin 0) (Tf self) 300 = Ok t /\
    length t = 300%nat /\
    last t NaN = Tf self /\
    (exists t0, hd_error t = Some t0 /\ t0 =~ 0) /\
    Forall (fun x => exists i, (i <= 300 - 1)%nat /\
                               x =~ INR i * (tf / INR (300 - 1))) t /\
    Forall2 (fun x y => y =~ Runtreated (fval x) n0 td) t sin /\
    Forall2 (fun x y => y =~ Rtreated (fval x) n0 k rr al) t con /\
    half =~ k / 2 /\
    A_auto self N0 = Ok A /\ A =~ (k - n0) / n0 /\
    _calcular_tiempo_medio st self N0 r alpha A = Ok o /\
    _update_plot st self N0 r alpha =
      Ok {| fig_t := t; fig_sin := sin; fig_con := con; fig_half := half;
            fig_marker := option_map (fun th => (th, half)) o;
            fig_ylim := (Fin 0, py_mul (K self) (Fin (11 / 10)));
            fig_xlim := (Fin 0, Tf self) |}.
Proof.
  intros HK HT HTd HN Hr Ha Hn0 Hk Htd.
  destruct (np_linspace_grid st (Tf self) tf 300 HT)
    as (t & Et & Lt & Last & Hd & Ft).
  { repeat constructor. }
  assert (Hfin : forall x, In x t -> x =~ fval x).
  { intros x Hx. rewrite Forall_forall in Ft.
    destruct (Ft x Hx) as (i & _ & Hxi).
    apply finite_repr, (repr_finite _ _ Hxi). }
  destruct (mapM_ok
              (fun ti => _crecimiento_sin_tratamiento st ti N0 (Td self))
              (fun x y => y =~ Runtreated (fval x) n0 td) t)
    as (sin & Es & Fs).
  { intros x Hx. apply untreated_repr; auto. }
  destruct (mapM_ok
              (fun ti => _crecimiento_con_tratamiento st ti N0 (K self)
                           r alpha)
              (fun x y => y =~ Rtreated (fval x) n0 k rr al) t)
    as (con & Ec & Fc).
  { intros x Hx. apply treated_eval; auto. }
  destruct (py_div_repr _ _ _ _ HK (repr_Fin 2)) as (half & Eh & Hh);
    [lra|].
  destruct (A_auto_repr self N0 k n0 HK HN) as (A & EA & HA); [lra|].
  destruct (solver_total st self N0 r alpha A) as (o & Eo).
  exists t, sin, con, half, A, o.
  repeat (split; [assumption|]).
  unfold _update_plot. rewrite Et. cbn [bind]. rewrite Es. cbn [bind].
  rewrite Ec. cbn [bind]. rewrite Eh. cbn [bind]. rewrite EA. cbn [bind].
  rewrite Eo. reflexivity.
Qed.

Lemma Forall2_hd {A B : Type} (P : A -> B -> Prop) (l : list A)
    (l' : list B) (a : A) :
  Forall2 P l l' -> hd_error l = Some a ->
  exists b, hd_error l' = Some b /\ P a b.
Proof.
  intros F H. destruct F as [|x y l l' Hxy F]; [discriminate|].
  injection H as <-. exists y. split; [reflexivity | exact Hxy].
Qed.

(** X16. In exact real arithmetic (no rounding, overflow or underflow): on
    finite parameters with [0 < N0 < K], [Tf > 0] and [Td <> 0],
    [_update_plot] raises nothing, under any error state, and its figure
    holds a grid of 300 finite times in [[0, Tf]], starting at 0 and ending
    at [Tf] itself, with each series the closed form of its curve at the
    grid point; both series start at [N0]. *)
Theorem update_plot_series (st : errstate) (self : CellularGrowthSimulator)
    (N0 r alpha : float) (k tf td n0 rr al : R) :
  K self =~ k -> Tf self =~ tf -> Td self =~ td ->
  N0 =~ n0 -> r =~ rr -> alpha =~ al ->
  0 < n0 -> n0 < k -> 0 < tf -> td <> 0 ->
  exists fig,
    _update_plot st self N0 r alpha = Ok fig /\
    length (fig_t fig) = 300%nat /\
    length (fig_sin fig) = 300%nat /\
    length (fig_con fig) = 300%nat /\
    last (fig_t fig) NaN = Tf self /\
    Forall (fun x => finite x = true /\ 0 <= fval x <= tf) (fig_t fig) /\
    Forall2 (fun x y => y =~ Runtreated (fval x) n0 td)
      (fig_t fig) (fig_sin fig) /\
    Forall2 (fun x y => y =~ Rtreated (fval x) n0 k rr al)
      (fig_t fig) (fig_con fig) /\
    (exists t0, hd_error (fig_t fig) = Some t0 /\ t0 =~ 0) /\
    hd_error (fig_sin fig) = Some N0 /\
    hd_error (fig_con fig) = Some N0.
Proof.
  intros HK HT HTd HN Hr Ha Hn0 Hk Htf Htd.
  destruct (update_plot_eval st self N0 r alpha k tf td n0 rr al
              HK HT HTd HN Hr Ha Hn0 Hk Htd)
    as (t & sin & con & half & A & o & _ & Lt & Last & (t0 & Ht0 & Rt0) & Ft
        & Fs & Fc & _ & _ & _ & _ & E).
  eexists. split; [exact E|]. cbn [fig_t fig_sin fig_con].
  split; [exact Lt|].
  split; [rewrite <- (Forall2_length Fs); exact Lt|].
  split; [rewrite <- (Forall2_length Fc); exact Lt|].
  split; [exact Last|].
  split.
  { apply (Forall_impl _ (P := fun x => exists i, (i <= 300 - 1)%nat /\
                                   x =~ INR i * (tf / INR (300 - 1))));
      [|exact Ft].
    intros x (i & Hi & [Hf Hv]). split; [exact Hf|]. rewrite Hv.
    apply grid_point_bounds; [exact Hi | | lra].
    apply PeanoNat.Nat.lt_0_succ. }
  split; [exact Fs|]. split; [exact Fc|].
  split; [exists t0; split; assumption|].
  destruct Rt0 as [_ V0].
  destruct (Forall2_hd _ _ _ _ Fs Ht0) as (s0 & Hs0 & Rs0).
  destruct (Forall2_hd _ _ _ _ Fc Ht0) as (c0 & Hc0 & Rc0).
  rewrite V0 in Rs0, Rc0.
  rewrite Runtreated_at_0 in Rs0. rewrite Rtreated_at_0 in Rc0 by lra.
  rewrite Hs0, Hc0. split; f_equal.
  - apply (repr_eq_nonzero s0 N0 n0 Rs0 HN). lra.
  - apply (repr_eq_nonzero c0 N0 n0 Rc0 HN). lra.
Qed.

Lemma update_plot_series_witness :
  exists fig,
    _update_plot np_default default_simulator (Fin 50) (Fin (25 / 100))
      (Fin (1 / 100)) = Ok fig /\
    length (fig_t fig) = 300%nat /\
    last (fig_t fig) NaN = Fin 40 /\
    hd_error (fig_sin fig) = Some (Fin 50) /\
    hd_error (fig_con fig) = Some (Fin 50).
Proof.
  destruct (update_plot_series np_default default_simulator (Fin 50)
              (Fin (25 / 100)) (Fin (1 / 100))
              800 40 (35 / 10) 50 (25 / 100) (1 / 100))
    as (fig & E & Lt & _ & _ & Last & _ & _ & _ & _ & Hs & Hc).
  - split; reflexivity.
  - split; reflexivity.
  - split; reflexivity.
  - split; reflexivity.
  - split; reflexivity.
  - split; reflexivity.
  - lra.
  - lra.
  - lra.
  - lra.
  - exists fig. repeat (split; [assumption|]). exact Hc.
Defined.

(** X17. In exact real arithmetic (no rounding, overflow or underflow), on
    the same parameters every sample of the treated series lies
    strictly between 0 and [K], hence strictly inside the y-limits
    [(0, 1.1 * K)] the figure is given; every sample of the untreated series
    is finite and positive, and the x-limits are [(0, Tf)]. *)
Theorem update_plot_series_in_limits (st : errstate)
    (self : CellularGrowthSimulator) (N0 r alpha : float)
    (k tf td n0 rr al : R) :
  K self =~ k -> Tf self =~ tf -> Td self =~ td ->
  N0 =~ n0 -> r =~ rr -> alpha =~ al ->
  0 < n0 -> n0 < k -> td <> 0 ->
  exists fig,
    _update_plot st self N0 r alpha = Ok fig /\
    fst (fig_ylim fig) = Fin 0 /\ snd (fig_ylim fig) =~ 11 / 10 * k /\
    fig_xlim fig = (Fin 0, Tf self) /\
    Forall (fun y => finite y = true /\ 0 < fval y < k
                     /\ fval y < fval (snd (fig_ylim fig))) (fig_con fig) /\
    Forall (fun y => finite y = true /\ 0 < fval y) (fig_sin fig).
Proof.
  intros HK HT HTd HN Hr Ha Hn0 Hk Htd.
  destruct (update_plot_eval st self N0 r alpha k tf td n0 rr al
              HK HT HTd HN Hr Ha Hn0 Hk Htd)
    as (t & sin & con & half & A & o & _ & _ & _ & _ & _
        & Fs & Fc & _ & _ & _ & _ & E).
  pose proof (py_mul_repr _ _ _ _ HK (repr_Fin (11 / 10))) as Hy.
  eexists. split; [exact E|].
  cbn [fig_ylim fig_xlim fig_con fig_sin fst snd].
  split; [reflexivity|].
  split; [apply (repr_ext _ _ _ Hy); ring|].
  split; [reflexivity|].
  split.
  - apply (Forall2_right _ _ _ _ Fc). intros x y _ [Hf Hv].
    destruct (Rtreated_bounds (fval x) n0 k rr al Hn0 Hk) as [_ Hb].
    destruct Hy as [_ Hyv]. rewrite Hv, Hyv.
    split; [exact Hf|]. split; [exact Hb | lra].
  - apply (Forall2_right _ _ _ _ Fs). intros x y _ [Hf Hv].
    split; [exact Hf|]. rewrite Hv, Runtreated_exp.
    apply Rmult_lt_0_compat; [exact Hn0 | apply exp_pos].
Qed.

Lemma update_plot_series_in_limits_witness :
  exists fig,
    _update_plot np_default default_simulator (Fin 50) (Fin (25 / 100))
      (Fin (1 / 100)) = Ok fig /\
    Forall (fun y => finite y = true /\ 0 < fval y < 800
                     /\ fval y < fval (snd (fig_ylim fig))) (fig_con fig).
Proof.
  destruct (update_plot_series_in_limits np_default default_simulator
              (Fin 50) (Fin (25 / 100)) (Fin (1 / 100))
              800 40 (35 / 10) 50 (25 / 100) (1 / 100))
    as (fig & E & _ & _ & _ & Hc & _).
  - split; reflexivity.
  - split; reflexivity.
  - split; reflexivity.
  - split; reflexivity.
  - split; reflexivity.
  - split; reflexivity.
  - lra.
  - lra.
  - lra.
  - exists fig. split; [exact E | exact Hc].
Defined.

(** A returned time, for [r > 0], [alpha >= 0] and [A > 0]: [alpha] is not
    zero, the roots are real and the time is the second root. *)
Lemma solver_some_root (st : errstate) (self : CellularGrowthSimulator)
    (N0 r alpha A th : float) (rr al aa tf : R) :
  r =~ rr -> alpha =~ al -> A =~ aa -> Tf self =~ tf ->
  0 < rr -> 0 <= al -> 0 < aa ->
  _calcular_tiempo_medio st self N0 r alpha A = Ok (Some th) ->
  0 < al /\ 0 <= Rdisc rr al aa /\ th =~ Rroot2 rr al aa /\
  Rroot2 rr al aa <= tf.
Proof.
  intros Hr Ha HA HT Hrr Hal Haa E.
  destruct (Req_dec_T al 0) as [Hz|Hnz].
  { rewrite (solver_degenerate st self N0 r alpha A rr al aa) in E;
      try assumption; [discriminate | exact (repr_finite _ _ HT) |].
    rewrite Hz. ring. }
  assert (Hpos : 0 < al) by lra.
  destruct (Rlt_dec (Rdisc rr al aa) 0) as [Hneg|Hnn].
  { rewrite (solver_negative_discriminant st self N0 r alpha A rr al aa)
      in E by assumption. discriminate. }
  assert (Hd : 0 <= Rdisc rr al aa) by lra.
  destruct (solver_second_root st self N0 r alpha A rr al aa tf
              Hr Ha HA HT Haa Hrr Hpos Hd) as (x2 & H2 & E2).
  rewrite E2 in E.
  destruct (Rle_dec (Rroot2 rr al aa) tf) as [Hle|Hgt].
  - rewrite (Rleb_true _ _ Hle) in E. injection E as <-. auto.
  - rewrite (Rleb_false _ _ Hgt) in E. discriminate.
Qed.

Lemma headroom_positive (k n0 : R) : 0 < n0 -> n0 < k -> 0 < (k - n0) / n0.
Proof. intros H1 H2. apply Rdiv_lt_0_compat; lra. Qed.

(** X18. The marker of the figure, in exact real arithmetic (no rounding,
    overflow or underflow).  On finite parameters with
    [0 < N0 < K], [r > 0], [alpha >= 0] and [Td <> 0], when [_update_plot]
    draws the marker [(t, h)], its height [h] is the [K / 2] of the
    reference line, its time satisfies [0 < t <= Tf] and lies at or after
    the peak ([2 * alpha * t >= 1]), and the treated curve at [t] is
    [K / 2]: the marker sits where the descending curve meets the line. *)
Theorem update_plot_marker (st : errstate) (self : CellularGrowthSimulator)
    (N0 r alpha : float) (k tf td n0 rr al : R) :
  K self =~ k -> Tf self =~ tf -> Td self =~ td ->
  N0 =~ n0 -> r =~ rr -> alpha =~ al ->
  0 < n0 -> n0 < k -> td <> 0 -> 0 < rr -> 0 <= al ->
  exists fig,
    _update_plot st self N0 r alpha = Ok fig /\
    fig_half fig =~ k / 2 /\
    forall th h,
      fig_marker fig = Some (th, h) ->
      h = fig_half fig /\ finite th = true /\
      0 < fval th <= tf /\ 1 <= 2 * al * fval th /\
      Rtreated (fval th) n0 k rr al = k / 2.
Proof.
  intros HK HT HTd HN Hr Ha Hn0 Hk Htd Hrr Hal.
  destruct (update_plot_eval st self N0 r alpha k tf td n0 rr al
              HK HT HTd HN Hr Ha Hn0 Hk Htd)
    as (t & sin & con & half & A & o & _ & _ & _ & _ & _
        & _ & _ & Hh & _ & HA & Eo & E).
  eexists. split; [exact E|]. cbn [fig_half fig_marker].
  split; [exact Hh|].
  intros th h Hm. destruct o as [x|]; [|discriminate].
  cbn [option_map] in Hm. injection Hm as <- <-.
  pose proof (headroom_positive k n0 Hn0 Hk) as Haa.
  destruct (solver_some_root st self N0 r alpha A x rr al _ tf
              Hr Ha HA HT Hrr Hal Haa Eo) as (Hpos & Hd & [Hf Hv] & Hle).
  assert (Hnz : rr * al <> 0) by nra.
  destruct (Rroots_ordered rr al _ Hrr Hpos Hd) as [_ Hpk].
  pose proof (Rroot2_pos rr al _ Hrr Hpos Hd) as Hp2.
  split; [reflexivity|]. split; [exact Hf|]. rewrite Hv.
  split; [split; assumption|]. split.
  - apply Rmult_le_reg_r with (1 / (2 * al)).
    + apply Rdiv_lt_0_compat; lra.
    + replace (2 * al * Rroot2 rr al ((k - n0) / n0) * (1 / (2 * al)))
        with (Rroot2 rr al ((k - n0) / n0)) by (field; lra).
      lra.
  - apply root_half_capacity; try assumption.
    apply Rroot2_is_root; assumption.
Qed.

Lemma update_plot_marker_witness :
  exists fig,
    _update_plot np_default default_simulator (Fin 50) (Fin 1)
      (Fin (5 / 100)) = Ok fig /\
    fig_half fig =~ 800 / 2 /\
    forall th h,
      fig_marker fig = Some (th, h) ->
      h = fig_half fig /\ finite th = true /\
      0 < fval th <= 40 /\ 1 <= 2 * (5 / 100) * fval th /\
      Rtreated (fval th) 50 800 1 (5 / 100) = 800 / 2.
Proof.
  apply (update_plot_marker np_default default_simulator (Fin 50) (Fin 1)
           (Fin (5 / 100)) 800 40 (35 / 10) 50 1 (5 / 100)).
  - split; reflexivity.
  - split; reflexivity.
  - split; reflexivity.
  - split; reflexivity.
  - split; reflexivity.
  - split; reflexivity.
  - lra.
  - lra.
  - lra.
  - lra.
  - lra.
Defined.






(** ** Within the slider ranges *)

Lemma fle_bounds (a b : R) (v : float) :
  fle (Fin a) v = true -> fle v (Fin b) = true ->
  v =~ fval v /\ a <= fval v <= b.
Proof.
  intros H1 H2. destruct v; try discriminate.
  - cbn [fle fval] in *. apply Rleb_spec in H1. apply Rleb_spec in H2.
    split; [apply repr_Fin | split; assumption].
  - cbn [fle fval] in *. apply Rleb_spec in H1. apply Rleb_spec in H2.
    split; [apply repr_NZero | split; assumption].
Qed.

Lemma within_bounds (s : FloatSlider) (a b : R) (v : float) :
  min s = Fin a -> max s = Fin b -> within s v = true ->
  v =~ fval v /\ a <= fval v <= b.
Proof.
  intros Ha Hb H. unfold within in H. rewrite Ha, Hb in H.
  apply andb_prop in H. destruct H as [H1 H2].
  apply fle_bounds; assumption.
Qed.

(** X20. In exact real arithmetic (no rounding, overflow or underflow):
    for the default simulator ([K = 800], [Tf = 40], [Td = 3.5]) and
    any values the three sliders can hold ([10 <= N0 <= 200],
    [0.05 <= r <= 1], [0.001 <= alpha <= 0.05]), [_update_plot] never
    raises, under any error state.  No marker is drawn when
    [alpha < 1/80 = 0.0125]; a marker that is drawn stands at height 400,
    at a time between [1 / (2 alpha)] and [1 / alpha] and at most 40. *)
Theorem update_plot_within_sliders (st : errstate) (N0 r alpha : float) :
  within (N0_slider default_simulator) N0 = true ->
  within (r_slider default_simulator) r = true ->
  within (alpha_slider default_simulator) alpha = true ->
  exists fig,
    _update_plot st default_simulator N0 r alpha = Ok fig /\
    (fval alpha < 1 / 80 -> fig_marker fig = None) /\
    forall th h,
      fig_marker fig = Some (th, h) ->
      h =~ 400 /\
      1 / (2 * fval alpha) <= fval th <= 1 / fval alpha /\
      fval th <= 40.
Proof.
  intros WN Wr Wa.
  destruct (within_bounds (N0_slider default_simulator) 10 200 N0
              eq_refl eq_refl WN) as [HN BN].
  destruct (within_bounds (r_slider default_simulator) (5 / 100) 1 r
              eq_refl eq_refl Wr) as [Hr Br].
  destruct (within_bounds (alpha_slider default_simulator) (1 / 1000)
              (5 / 100) alpha eq_refl eq_refl Wa) as [Ha Ba].
  set (n0 := fval N0) in *. set (rr := fval r) in *.
  set (al := fval alpha) in *.
  destruct (update_plot_eval st default_simulator N0 r alpha
              800 40 (35 / 10) n0 rr al)
    as (t & sin & con & half & A & o & _ & _ & _ & _ & _
        & _ & _ & Hh & _ & HA & Eo & E);
    try (split; reflexivity); try assumption; try lra.
  assert (Haa : 3 <= (800 - n0) / n0).
  { apply Rmult_le_reg_r with n0; [lra|].
    unfold Rdiv. rewrite Rmult_assoc, Rinv_l by lra. lra. }
  eexists. split; [exact E|]. cbn [fig_marker]. split.
  - intros Hsmall.
    rewrite (solver_horizon_before_peak st default_simulator N0 r alpha A
               rr al _ 40 Hr Ha HA) in Eo;
      try (split; reflexivity); try lra.
    + injection Eo as <-. reflexivity.
    + apply Rmult_lt_reg_r with (2 * al); [lra|].
      unfold Rdiv. rewrite Rmult_1_l, Rinv_l by lra. lra.
  - intros th h Hm. destruct o as [x|]; [|discriminate].
    cbn [option_map] in Hm. injection Hm as <- <-.
    destruct (solver_some_root st default_simulator N0 r alpha A x rr al _ 40
                Hr Ha HA) as (Hpos & Hd & [Hf Hv] & Hle);
      try (split; reflexivity); try lra; try assumption.
    destruct (Rroots_ordered rr al _ ltac:(lra) Hpos Hd) as [_ Hpk].
    assert (Hln : 0 <= ln ((800 - n0) / n0)).
    { rewrite <- ln_1. left. apply ln_increasing; lra. }
    pose proof (Rroot2_upper rr al _ ltac:(lra) Hpos Hln Hd) as Hup.
    split; [apply (repr_ext _ _ _ Hh); lra|].
    rewrite Hv. split; [split; assumption | exact Hle].
Qed.

Lemma update_plot_within_sliders_witness :
  exists fig,
    _update_plot np_default default_simulator (Fin 50) (Fin (25 / 100))
      (Fin (1 / 100)) = Ok fig /\
    fig_marker fig = None.
Proof.
  destruct (update_plot_within_sliders np_default (Fin 50) (Fin (25 / 100))
              (Fin (1 / 100))) as (fig & E & Hnone & _).
  - unfold within. cbn [N0_slider min max fle fval].
    rewrite !Rleb_true by lra. reflexivity.
  - unfold within. cbn [r_slider min max fle fval].
    rewrite !Rleb_true by lra. reflexivity.
  - unfold within. cbn [alpha_slider min max fle fval].
    rewrite !Rleb_true by lra. reflexivity.
  - exists fig. split; [exact E|]. apply Hnone. cbn [fval]. lra.
Defined.

(** ** The treated curve in binary64: the bounds are attained *)

Module B64Facts.

Import PrimFloat.
Local Open Scope float_scope.

(** C10 as stated fails.  Both inputs satisfy [0 < N0 < K], [r > 0] and
    [alpha >= 0], and [t = 1000] is finite.  With the default [r = 0.25] and
    [alpha = 0.01] the exponent is 2250, the exponential overflows to +inf
    and the code returns exactly 0.0; with [r = 1] and [alpha = 0] the
    exponent is -1000, the exponential underflows to 0.0 and the code returns
    exactly [K].  Neither value is strictly between 0 and [K], whatever the
    C library computes elsewhere. *)
Lemma treated_growth_binary64_attains_bounds :
  ((0 <? 50) && (50 <? 800) && (0 <? 0.25) && (0 <=? 0.01) = true /\
   forall libm_exp,
     B64._crecimiento_con_tratamiento libm_exp 1000 50 800 0.25 0.01
       = Ok 0 /\
     (0 <? 0) = false) /\
  ((0 <? 50) && (50 <? 800) && (0 <? 1) && (0 <=? 0) = true /\
   forall libm_exp,
     B64._crecimiento_con_tratamiento libm_exp 1000 50 800 1 0 = Ok 800 /\
     (800 <? 800) = false).
Proof.
  split; (split; [reflexivity | intros libm_exp; split; reflexivity]).
Qed.

(** Rounding alone is enough, at slider positions and inside the horizon:
    for [N0 = 130], [r = 1.0], [alpha = 0.001] and [t = 40] the exponent is
    the double -38.4; if the C library returns there the double nearest to
    the exponential, 0x1.842926dbbacacp-56 = 2.104223637677623e-17, the sum
    [1 + A * exp(..)] rounds to 1.0 and the code returns exactly [K]. *)
Example treated_growth_binary64_rounds_to_K :
  - (1) * 40 * (1 - 0.001 * 40) = -0x1.3333333333333p+5 /\
  forall libm_exp,
    libm_exp (-0x1.3333333333333p+5) = 0x1.842926dbbacacp-56 ->
    B64._crecimiento_con_tratamiento libm_exp 40 130 800 1 0.001 = Ok 800.
Proof.
  split; [reflexivity|].
  intros libm_exp H.
  unfold B64._crecimiento_con_tratamiento, B64.py_div, B64.np_exp.
  change (- (1) * 40 * (1 - 0.001 * 40)) with (-0x1.3333333333333p+5).
  change (130 =? 0) with false.
  change (is_nan (-0x1.3333333333333p+5)) with false.
  change (710 <=? -0x1.3333333333333p+5) with false.
  change (-0x1.3333333333333p+5 <=? -746) with false.
  cbv iota. cbn [bind]. rewrite H. reflexivity.
Qed.

End B64Facts.
